(** * LLD-patterns: a shallow embedding of the creation-pattern examples

    The C++ sources are small class hierarchies.  Each abstract class becomes
    an inductive type with one constructor per concrete subclass, a virtual
    method becomes a function by cases on that type, and a method that
    allocates, mutates an object behind a pointer, throws or has undefined
    behaviour becomes a computation in the monad [Cpp.M] below. *)

From Stdlib Require Import ZArith List Ascii String Floats.PrimFloat Floats.SpecFloat.
From stdpp Require Import gmap strings list fin_maps pretty.
Import ListNotations.

Local Open Scope string_scope.
Local Open Scope Z_scope.

(** ** How a C++ call ends, and stateful computations *)

Module Cpp.

(** The standard exceptions the modelled calls can raise. *)
Inductive exception : Set :=
| out_of_range   (* std::unordered_map::at on a missing key *)
| length_error.  (* std::vector(n, x) with n above max_size() *)

(** A call returns a value, leaves by an exception, or has undefined
    behaviour (null or dangling dereference, division by zero). *)
Inductive outcome (A : Type) : Type :=
| Returns (a : A)
| Throws (e : exception)
| Undefined.

Arguments Returns {A} a.
Arguments Throws {A} e.
Arguments Undefined {A}.

(** A computation over a program state [S]. The state is threaded through
    also when the call throws: an exception does not roll memory back. *)
Definition M (S A : Type) : Type := S -> outcome A * S.

Definition ret {S A} (a : A) : M S A := fun s => (Returns a, s).

Definition bind {S A B} (m : M S A) (k : A -> M S B) : M S B :=
  fun s =>
    match m s with
    | (Returns a, s') => k a s'
    | (Throws e, s') => (Throws e, s')
    | (Undefined, s') => (Undefined, s')
    end.

Definition get {S} : M S S := fun s => (Returns s, s).
Definition modify {S} (f : S -> S) : M S unit := fun s => (Returns tt, f s).

(** Sequencing of calls that use no program state. *)
Definition and_then {A B} (o : outcome A) (k : A -> outcome B) : outcome B :=
  match o with
  | Returns a => k a
  | Throws e => Throws e
  | Undefined => Undefined
  end.

(** A call fails when it does not return a value. *)
Definition fails {A} (o : outcome A) : Prop := forall a, o <> Returns a.

(** Pointers: [None] is [nullptr], [Some a] the address of a heap cell. *)
Abbreviation addr := positive (only parsing).
Abbreviation ptr := (option positive) (only parsing).
Abbreviation nullptr := (@None positive) (only parsing).

(** [new T(v)]: a cell at an address not in use, holding [v]. *)
Definition alloc {T} (h : gmap addr T) (v : T) : addr * gmap addr T :=
  let a := fresh (dom h) in (a, <[a := v]> h).

(** std::endl, as the character it writes. *)
Definition endl : string := String "010"%char EmptyString.

(** 32-bit [int]: the value a wider integer is converted to. *)
Definition INT_MAX : Z := 2147483647.
Definition to_int (z : Z) : Z := (z + 2 ^ 31) mod 2 ^ 32 - 2 ^ 31.

End Cpp.

Declare Scope cpp_scope.
Delimit Scope cpp_scope with cpp.
Notation "x <- m ;; k" := (Cpp.bind m (fun x => k))
  (at level 100, m at next level, right associativity) : cpp_scope.
Notation "m ;;; k" := (Cpp.bind m (fun _ => k))
  (at level 100, right associativity) : cpp_scope.

Import Cpp.

(** ** Factory method: the shipping products, shared by the two versions
       of the example *)

Module Shipping.

(** class ShippingMethod and its three subclasses (no data members). *)
Inductive ShippingMethod : Set := AirShipping | SeaShipping | GroundShipping.

Definition bookShipment (m : ShippingMethod) : string :=
  match m with
  | AirShipping => "Air shipping booked." ++ endl
  | SeaShipping => "Sea shipping booked." ++ endl
  | GroundShipping => "Ground shipping booked." ++ endl
  end.

(** [double] is IEEE binary64, as Rocq's primitive floats are. The product
    associates to the left, as the C++ expression does. *)
#[warnings="-inexact-float"]
Definition calculateShippingCost (m : ShippingMethod) (weight distance : float) : float :=
  match m with
  | AirShipping => (weight * distance * 0.5)%float
  | SeaShipping => (weight * distance * 0.3)%float
  | GroundShipping => (weight * distance * 0.1)%float
  end.

(** The tags the prompt of [main] announces: 1 for Air, 2 for Sea, 3 for
    Ground. *)
Definition valid_tag (shippingChoice : Z) : bool :=
  (shippingChoice =? 1) || (shippingChoice =? 2) || (shippingChoice =? 3).

End Shipping.

(** factory_method_pattern.cpp: one creator class per product. *)

Module FactoryMethod.

Import Shipping.

Inductive ShippingFactory : Set :=
  AirShippingFactory | SeaShippingFactory | GroundShippingFactory.

(** The virtual factory method. [new] of a class without data members
    yields the product itself in the model. *)
Definition createShippingMethod (f : ShippingFactory) : outcome ShippingMethod :=
  match f with
  | AirShippingFactory => Returns AirShipping
  | SeaShippingFactory => Returns SeaShipping
  | GroundShippingFactory => Returns GroundShipping
  end.

(** The selection at the head of [main]. *)
Definition select_factory (shippingChoice : Z) : ShippingFactory :=
  if shippingChoice =? 1 then AirShippingFactory
  else if shippingChoice =? 2 then SeaShippingFactory
  else GroundShippingFactory.

End FactoryMethod.

(** The second version of the example: the static
    ShippingFactory::createShippingMethod(int). *)

Module StaticFactory.

Import Shipping.

Definition createShippingMethod (shippingChoice : Z) : outcome ShippingMethod :=
  if shippingChoice =? 1 then Returns AirShipping
  else if shippingChoice =? 2 then Returns SeaShipping
  else Returns GroundShipping.

End StaticFactory.

(** ** Abstract factory: furniture (abstract_factory_pattern.cpp) *)

Module Furniture.

Inductive Chair : Set := VictorianChair | ModernChair.
Inductive Sofa : Set := VictorianSofa | ModernSofa.

Definition sitOn (c : Chair) : string :=
  match c with
  | VictorianChair => "Sitting on a Victorian chair." ++ endl
  | ModernChair => "Sitting on a Modern chair." ++ endl
  end.

Definition lieOn (s : Sofa) : string :=
  match s with
  | VictorianSofa => "Lying on a Victorian sofa." ++ endl
  | ModernSofa => "Lying on a Modern sofa." ++ endl
  end.

Inductive FurnitureFactory : Set :=
  VictorianFurnitureFactory | ModernFurnitureFactory.

Definition createChair (f : FurnitureFactory) : Chair :=
  match f with
  | VictorianFurnitureFactory => VictorianChair
  | ModernFurnitureFactory => ModernChair
  end.

Definition createSofa (f : FurnitureFactory) : Sofa :=
  match f with
  | VictorianFurnitureFactory => VictorianSofa
  | ModernFurnitureFactory => ModernSofa
  end.

(** The selection at the head of [main]. *)
Definition select_factory (furnitureChoice : Z) : FurnitureFactory :=
  if furnitureChoice =? 1 then VictorianFurnitureFactory
  else ModernFurnitureFactory.

(** [main] from the choice read to the two products created. *)
Definition create_products (furnitureChoice : Z) : outcome (Chair * Sofa) :=
  let factory := select_factory furnitureChoice in
  let chair := createChair factory in
  let sofa := createSofa factory in
  Returns (chair, sofa).

(** The tags the prompt of [main] announces: 1 for Victorian, 2 for Modern. *)
Definition valid_tag (furnitureChoice : Z) : bool :=
  (furnitureChoice =? 1) || (furnitureChoice =? 2).

(** The family name each concrete factory is named after. *)
Definition family (f : FurnitureFactory) : string :=
  match f with
  | VictorianFurnitureFactory => "Victorian"
  | ModernFurnitureFactory => "Modern"
  end.

(** [occurs p s]: the text [p] occurs somewhere in [s]. *)
Fixpoint occurs (p s : string) : bool :=
  String.prefix p s ||
  match s with
  | EmptyString => false
  | String _ s' => occurs p s'
  end.

(** The style a printed line reports. *)
Definition reports (style line : string) : bool := occurs style line.

End Furniture.

(** ** Prototype: game characters (prototype_pattern.cpp) *)

Module Prototype.

(** class Character and its subclasses; each holds the private [name]. *)
Inductive Character : Set :=
| Warrior (name : string)
| Mage (name : string)
| Archer (name : string).

Definition showDetails (c : Character) : string :=
  match c with
  | Warrior name => "Warrior: " ++ name ++ endl
  | Mage name => "Mage: " ++ name ++ endl
  | Archer name => "Archer: " ++ name ++ endl
  end.

(** The program state: the objects on the heap and the one registry's
    unordered_map<string, Character*>. *)
Record world : Type := World {
  heap : gmap addr Character;
  prototypes : gmap string ptr
}.

(** [new C(...)]. *)
Definition new_ (c : Character) : M world ptr :=
  fun w =>
    let (a, h) := alloc (heap w) c in
    (Returns (Some a), World h (prototypes w)).

(** [*p]: undefined on a null or dangling pointer. *)
Definition deref (p : ptr) : M world Character :=
  fun w =>
    match p with
    | None => (Undefined, w)
    | Some a =>
        match heap w !! a with
        | Some c => (Returns c, w)
        | None => (Undefined, w)
        end
    end.

(** The virtual [clone]: each class copy-constructs an object of its own
    class from [*this]. *)
Definition clone (p : ptr) : M world ptr :=
  (this <- deref p ;;
   match this with
   | Warrior name => new_ (Warrior name)
   | Mage name => new_ (Mage name)
   | Archer name => new_ (Archer name)
   end)%cpp.

(** CharacterRegistry::addPrototype: [prototypes[type] = prototype]. *)
Definition addPrototype (type : string) (prototype : ptr) : M world unit :=
  modify (fun w => World (heap w) (<[type := prototype]> (prototypes w))).

(** [prototypes.at(type)]. *)
Definition prototypes_at (type : string) : M world ptr :=
  fun w =>
    match prototypes w !! type with
    | Some p => (Returns p, w)
    | None => (Throws out_of_range, w)
    end.

(** CharacterRegistry::getPrototype. *)
Definition getPrototype (type : string) : M world ptr :=
  (p <- prototypes_at type ;; clone p)%cpp.

(** The classes have no mutator. A mutation of the object at [a] is taken
    as the strongest one, replacing its whole value; [mutate] does nothing
    when [a] is not a live object. *)
Definition mutate (a : addr) (c : Character) (w : world) : world :=
  match heap w !! a with
  | Some _ => World (<[a := c]> (heap w)) (prototypes w)
  | None => w
  end.

(** What the pointer [p] shows in [w], if it points to an object. *)
Definition shows (w : world) (p : ptr) : option string :=
  a ← p; showDetails <$> heap w !! a.

(** [delete p]: nothing for a null pointer, the end of the object for a
    live one, undefined for a pointer to no object (a second delete). *)
Definition delete_ (p : ptr) : M world unit :=
  fun w =>
    match p with
    | None => (Returns tt, w)
    | Some a =>
        match heap w !! a with
        | Some _ => (Returns tt, World (delete a (heap w)) (prototypes w))
        | None => (Undefined, w)
        end
    end.

(** The loop of the destructor over the registered pointers, in the order
    the map hands them out. *)
Fixpoint delete_each (ps : list ptr) : M world unit :=
  match ps with
  | [] => ret tt
  | p :: ps' => (delete_ p ;;; delete_each ps')%cpp
  end.

(** The registered pointers in the default order of the model. An
    unordered_map iterates in an unspecified order, so the destructor is
    modelled for every order [ps] of these pointers. *)
Definition registered (w : world) : list ptr := (map_to_list (prototypes w)).*2.

(** CharacterRegistry::~CharacterRegistry, iterating in the order [ps]; the
    member map goes with the registry. *)
Definition destroy_registry (ps : list ptr) : M world unit :=
  (delete_each ps ;;;
   modify (fun w => World (heap w) ∅))%cpp.

(** [p] points to an object of [w]. *)
Definition live (w : world) (p : ptr) : Prop := is_Some (a ← p; heap w !! a).

#[global] Instance live_dec (w : world) (p : ptr) : Decision (live w p).
Proof. unfold live. apply _. Defined.

End Prototype.

(** ** Builder: meals (builder_pattern.cpp) *)

Module Builder.

(** class Meal: the vector of dishes. *)
Record Meal : Set := { dishes : list string }.

Definition showMeal (m : Meal) : string :=
  "Meal includes: " ++ fold_right (fun dish out => dish ++ " " ++ out) endl (dishes m).

(** The program state: the Meal objects on the heap. *)
Abbreviation heap := (gmap addr Meal) (only parsing).

(** [new Meal()]. *)
Definition new_Meal : M heap ptr :=
  fun h => let (a, h') := alloc h {| dishes := [] |} in (Returns (Some a), h').

(** [meal->addDish(dish)]: [dishes.push_back(dish)] on the object behind the
    pointer. *)
Definition addDish (meal : ptr) (dish : string) : M heap unit :=
  fun h =>
    match meal with
    | None => (Undefined, h)
    | Some a =>
        match h !! a with
        | Some m => (Returns tt, <[a := {| dishes := dishes m ++ [dish] |}]> h)
        | None => (Undefined, h)
        end
    end.

(** class MealBuilder and its subclasses; each holds the pointer [meal]. *)
Inductive MealBuilder : Set :=
| VegetarianMealBuilder (meal : ptr)
| NonVegetarianMealBuilder (meal : ptr).

(** The data member [meal]. *)
Definition meal_of (b : MealBuilder) : ptr :=
  match b with
  | VegetarianMealBuilder meal => meal
  | NonVegetarianMealBuilder meal => meal
  end.

(** The two constructors: [meal = new Meal()]. *)
Definition new_VegetarianMealBuilder : M heap MealBuilder :=
  (meal <- new_Meal ;; ret (VegetarianMealBuilder meal))%cpp.

Definition new_NonVegetarianMealBuilder : M heap MealBuilder :=
  (meal <- new_Meal ;; ret (NonVegetarianMealBuilder meal))%cpp.

Definition buildMainDish (b : MealBuilder) : M heap unit :=
  match b with
  | VegetarianMealBuilder meal => addDish meal "Vegetarian Burger"
  | NonVegetarianMealBuilder meal => addDish meal "Chicken Burger"
  end.

Definition buildSideDish (b : MealBuilder) : M heap unit :=
  match b with
  | VegetarianMealBuilder meal => addDish meal "Salad"
  | NonVegetarianMealBuilder meal => addDish meal "Fries"
  end.

Definition buildDrink (b : MealBuilder) : M heap unit :=
  match b with
  | VegetarianMealBuilder meal => addDish meal "Lemonade"
  | NonVegetarianMealBuilder meal => addDish meal "Coke"
  end.

Definition getMeal (b : MealBuilder) : M heap ptr :=
  match b with
  | VegetarianMealBuilder meal => ret meal
  | NonVegetarianMealBuilder meal => ret meal
  end.

(** MealDirector::constructMeal. *)
Definition constructMeal (builder : MealBuilder) : M heap ptr :=
  (buildMainDish builder ;;;
   buildSideDish builder ;;;
   buildDrink builder ;;;
   getMeal builder)%cpp.

(** The construction steps of the MealBuilder interface, to speak of the
    step calls a client has made so far. *)
Inductive step : Set := MainDish | SideDish | Drink.

#[global] Instance step_eq_dec : EqDecision step.
Proof. solve_decision. Defined.

Definition run_step (b : MealBuilder) (s : step) : M heap unit :=
  match s with
  | MainDish => buildMainDish b
  | SideDish => buildSideDish b
  | Drink => buildDrink b
  end.

Fixpoint run_steps (b : MealBuilder) (ss : list step) : M heap unit :=
  match ss with
  | [] => ret tt
  | s :: ss' => (run_step b s ;;; run_steps b ss')%cpp
  end.

(** What each step of each builder contributes. *)
Definition dish_of (b : MealBuilder) (s : step) : string :=
  match b, s with
  | VegetarianMealBuilder _, MainDish => "Vegetarian Burger"
  | VegetarianMealBuilder _, SideDish => "Salad"
  | VegetarianMealBuilder _, Drink => "Lemonade"
  | NonVegetarianMealBuilder _, MainDish => "Chicken Burger"
  | NonVegetarianMealBuilder _, SideDish => "Fries"
  | NonVegetarianMealBuilder _, Drink => "Coke"
  end.

(** All three steps of the interface occur among the calls made. *)
Definition all_required (ss : list step) : bool :=
  bool_decide (MainDish ∈ ss) && bool_decide (SideDish ∈ ss) && bool_decide (Drink ∈ ss).

(** What showMeal prints for the Meal behind [p]. *)
Definition shown_at (h : heap) (p : ptr) : option string :=
  a ← p; showMeal <$> h !! a.

(** The dishes of the Meal behind [p]. *)
Definition dishes_at (h : heap) (p : ptr) : option (list string) :=
  a ← p; dishes <$> h !! a.

(** [delete meal], as [main] does with the Meal the director returned. *)
Definition delete_Meal (meal : ptr) : M heap unit :=
  fun h =>
    match meal with
    | None => (Returns tt, h)
    | Some a =>
        match h !! a with
        | Some _ => (Returns tt, delete a h)
        | None => (Undefined, h)
        end
    end.

End Builder.

(** ** Singleton: the database connection (the singleton example) *)

Module Singleton.

Record DatabaseConnection : Set := { connectionString : string }.

(** The program state: the static member [instance], the objects on the
    heap and what has been written to std::cout. *)
Record world : Type := World {
  instance : ptr;
  heap : gmap addr DatabaseConnection;
  cout : string
}.

(** The state at program start: [instance] is initialised to nullptr. *)
Definition initial : world := World nullptr ∅ "".

Definition print (s : string) : M world unit :=
  modify (fun w => World (instance w) (heap w) (cout w ++ s)).

(** [new DatabaseConnection(connectionStr)]: the private constructor stores
    the string and reports the connection. *)
Definition new_DatabaseConnection (connectionStr : string) : M world ptr :=
  (p <- (fun w =>
           let (a, h) := alloc (heap w) {| connectionString := connectionStr |} in
           (Returns (Some a), World (instance w) h (cout w))) ;;
   print ("Database connection established: " ++ connectionStr ++ endl) ;;;
   ret p)%cpp.

Definition set_instance (p : ptr) : M world unit :=
  modify (fun w => World p (heap w) (cout w)).

(** DatabaseConnection::getInstance. *)
Definition getInstance (connectionStr : string) : M world ptr :=
  (w <- get ;;
   match instance w with
   | None => (p <- new_DatabaseConnection connectionStr ;; set_instance p)
   | Some _ => ret tt
   end ;;;
   w' <- get ;;
   ret (instance w'))%cpp.

(** A sequence of getInstance calls, one per connection string, with the
    pointers they return. *)
Fixpoint calls (strs : list string) : M world (list ptr) :=
  match strs with
  | [] => ret []
  | s :: strs' => (p <- getInstance s ;; ps <- calls strs' ;; ret (p :: ps))%cpp
  end.

(** The state the first call leaves when made in [w] with [connectionStr]:
    the new object, [instance] pointing to it, the report on std::cout. *)
Definition connected (w : world) (connectionStr : string) : world :=
  World (Some (alloc (heap w) {| connectionString := connectionStr |}).1)
        (alloc (heap w) {| connectionString := connectionStr |}).2
        (cout w ++ ("Database connection established: " ++ connectionStr ++ endl)).

(** The connection string seen through the pointer [p]. *)
Definition connection_of (w : world) (p : ptr) : option string :=
  a ← p; connectionString <$> heap w !! a.

(** [this->executeQuery(query)] and [this->closeConnection()]: a call
    through a pointer to no object is undefined; otherwise the method only
    writes its line. *)
Definition through (this : ptr) (line : string) : M world unit :=
  fun w =>
    match this with
    | None => (Undefined, w)
    | Some a =>
        match heap w !! a with
        | Some _ => print line w
        | None => (Undefined, w)
        end
    end.

Definition executeQuery (this : ptr) (query : string) : M world unit :=
  through this ("Executing query: " ++ query ++ endl).

Definition closeConnection (this : ptr) : M world unit :=
  through this ("Closing database connection." ++ endl).

(** The uses a client makes of the connection it holds. *)
Inductive use : Set :=
| query (q : string)
| close.

Definition run_use (this : ptr) (u : use) : M world unit :=
  match u with
  | query q => executeQuery this q
  | close => closeConnection this
  end.

Fixpoint run_uses (this : ptr) (us : list use) : M world unit :=
  match us with
  | [] => ret tt
  | u :: us' => (run_use this u ;;; run_uses this us')%cpp
  end.

(** What the uses write, line by line. *)
Definition lines_of (us : list use) : string :=
  fold_right (fun u out =>
                match u with
                | query q => "Executing query: " ++ q ++ endl
                | close => "Closing database connection." ++ endl
                end ++ out) "" us.

End Singleton.

(** ** Parking lot: the spot (Examples/parking_spot.cpp) *)

Module Parking.

Module VehicleType.
Inductive t : Set := CAR | BIKE | TRUCK.
End VehicleType.

Module SpotType.
Inductive t : Set := CAR | BIKE | TRUCK.
End SpotType.

Record Vehicle : Set := { vehicle_number : string; vehicle_type : VehicleType.t }.

(** shared_ptr<Vehicle>: [None] is the null pointer. The vehicle behind it
    is never modified, so the pointer is modelled by the value it holds. *)
Abbreviation shared_ptr_Vehicle := (option Vehicle) (only parsing).

(** VehicleFactory::createVehicle; the closing [return nullptr] is not
    reached for the three enumerators. *)
Definition createVehicle (type : VehicleType.t) (num : string) : shared_ptr_Vehicle :=
  match type with
  | VehicleType.CAR => Some {| vehicle_number := num; vehicle_type := VehicleType.CAR |}
  | VehicleType.BIKE => Some {| vehicle_number := num; vehicle_type := VehicleType.BIKE |}
  | VehicleType.TRUCK => Some {| vehicle_number := num; vehicle_type := VehicleType.TRUCK |}
  end.

Record ParkingSpot : Set := {
  number : Z;
  type : SpotType.t;
  isAvailable : bool;
  currentVehicle : shared_ptr_Vehicle
}.

(** The constructor, with the default member initialisers. *)
Definition new_ParkingSpot (num : Z) (type : SpotType.t) : ParkingSpot :=
  {| number := num; type := type; isAvailable := true; currentVehicle := None |}.

Definition assignVehicle (v : shared_ptr_Vehicle) (s : ParkingSpot) : bool * ParkingSpot :=
  if negb (isAvailable s) then (false, s)
  else (true, {| number := number s; type := type s;
                 isAvailable := false; currentVehicle := v |}).

Definition removeVehicle (s : ParkingSpot) : ParkingSpot :=
  {| number := number s; type := type s;
     isAvailable := true; currentVehicle := None |}.

(** The calls a client makes on one spot. *)
Inductive op : Set :=
| assign (v : shared_ptr_Vehicle)
| remove.

Definition run_op (s : ParkingSpot) (o : op) : ParkingSpot :=
  match o with
  | assign v => snd (assignVehicle v s)
  | remove => removeVehicle s
  end.

Definition run (ops : list op) (s : ParkingSpot) : ParkingSpot :=
  fold_left run_op ops s.

(** The spot holds a vehicle. *)
Definition holds_vehicle (s : ParkingSpot) : bool :=
  match currentVehicle s with Some _ => true | None => false end.

(** [isAvailable] exactly when [currentVehicle] is null. *)
Definition available_iff_empty (s : ParkingSpot) : Prop :=
  isAvailable s = true <-> currentVehicle s = None.

(** Never both available and holding a vehicle. *)
Definition available_implies_empty (s : ParkingSpot) : Prop :=
  isAvailable s = true -> currentVehicle s = None.

(** No call passes a null vehicle. *)
Definition assigns_vehicles (ops : list op) : Prop :=
  Forall (fun o => match o with assign None => False | _ => True end) ops.

(** *** The lot: floors, tickets, parking and unparking *)

#[global] Instance SpotType_eq_dec : EqDecision SpotType.t.
Proof. solve_decision. Defined.

(** class ParkingFloor: the vector of shared pointers to its spots. *)
Record ParkingFloor : Set := { spots : list ptr }.

(** class Ticket. The entry time, read from the wall clock, is left out;
    the ticket is not modified once made, so shared_ptr<Ticket> is modelled
    by the value, [None] being the null pointer. *)
Record Ticket : Set := {
  ticket_id : Z;
  ticket_vehicle : shared_ptr_Vehicle;
  ticket_spot : ptr
}.

(** The program state seen by the one ParkingLot: the spots and floors on
    the heap, the lot's vector of floors and the static Ticket::globalId.
    What is written to std::cout is not part of this state (the line of
    unparkVehicle carries a fee computed from the wall clock). *)
Record lot : Type := Lot {
  spot_heap : gmap addr ParkingSpot;
  floor_heap : gmap addr ParkingFloor;
  floors : list ptr;
  globalId : Z
}.

(** SpotFactory::createSpot: the three branches make a spot of the type
    asked for, through the subclass constructors. *)
Definition createSpot (type : SpotType.t) (number : Z) : M lot ptr :=
  fun w =>
    let s := match type with
             | SpotType.CAR => new_ParkingSpot number SpotType.CAR
             | SpotType.BIKE => new_ParkingSpot number SpotType.BIKE
             | SpotType.TRUCK => new_ParkingSpot number SpotType.TRUCK
             end in
    let (a, h) := alloc (spot_heap w) s in
    (Returns (Some a), Lot h (floor_heap w) (floors w) (globalId w)).

(** [make_shared<ParkingFloor>()]. *)
Definition new_ParkingFloor : M lot ptr :=
  fun w =>
    let (a, h) := alloc (floor_heap w) {| spots := [] |} in
    (Returns (Some a), Lot (spot_heap w) h (floors w) (globalId w)).

Definition deref_spot (p : ptr) : M lot ParkingSpot :=
  fun w =>
    match p with
    | None => (Undefined, w)
    | Some a =>
        match spot_heap w !! a with
        | Some s => (Returns s, w)
        | None => (Undefined, w)
        end
    end.

Definition deref_floor (p : ptr) : M lot ParkingFloor :=
  fun w =>
    match p with
    | None => (Undefined, w)
    | Some a =>
        match floor_heap w !! a with
        | Some fl => (Returns fl, w)
        | None => (Undefined, w)
        end
    end.

(** ParkingFloor::addSpot, called through the pointer [floor]. *)
Definition addSpot (floor spot : ptr) : M lot unit :=
  fun w =>
    match floor with
    | None => (Undefined, w)
    | Some f =>
        match floor_heap w !! f with
        | Some fl =>
            (Returns tt,
             Lot (spot_heap w) (<[f := {| spots := spots fl ++ [spot] |}]> (floor_heap w))
                 (floors w) (globalId w))
        | None => (Undefined, w)
        end
    end.

(** ParkingLot::addFloor. *)
Definition addFloor (floor : ptr) : M lot unit :=
  modify (fun w => Lot (spot_heap w) (floor_heap w) (floors w ++ [floor]) (globalId w)).

(** The spot type getAvailableSpot asks for. *)
Definition required_for (vtype : VehicleType.t) : SpotType.t :=
  match vtype with
  | VehicleType.CAR => SpotType.CAR
  | VehicleType.BIKE => SpotType.BIKE
  | VehicleType.TRUCK => SpotType.TRUCK
  end.

(** The test of the loop: [spot->type == required && spot->isAvailable]. *)
Definition fits (required : SpotType.t) (s : ParkingSpot) : bool :=
  bool_decide (type s = required) && isAvailable s.

(** The loop of getAvailableSpot over the spots of the floor. *)
Fixpoint scan (required : SpotType.t) (sps : list ptr) : M lot ptr :=
  match sps with
  | [] => ret nullptr
  | spot :: rest =>
      (s <- deref_spot spot ;;
       if fits required s then ret spot else scan required rest)%cpp
  end.

(** ParkingFloor::getAvailableSpot, called through the pointer [floor]. *)
Definition getAvailableSpot (floor : ptr) (vtype : VehicleType.t) : M lot ptr :=
  (fl <- deref_floor floor ;; scan (required_for vtype) (spots fl))%cpp.

(** [spot->assignVehicle(v)] on the spot object behind the pointer. *)
Definition assign_at (spot : ptr) (v : shared_ptr_Vehicle) : M lot bool :=
  fun w =>
    match spot with
    | None => (Undefined, w)
    | Some a =>
        match spot_heap w !! a with
        | Some s =>
            (Returns (assignVehicle v s).1,
             Lot (<[a := (assignVehicle v s).2]> (spot_heap w))
                 (floor_heap w) (floors w) (globalId w))
        | None => (Undefined, w)
        end
    end.

(** [make_shared<Ticket>(v, s)]: the constructor takes [++globalId] as id;
    incrementing an int at INT_MAX is undefined. *)
Definition new_Ticket (v : shared_ptr_Vehicle) (s : ptr) : M lot (option Ticket) :=
  fun w =>
    if globalId w <? INT_MAX then
      (Returns (Some {| ticket_id := globalId w + 1; ticket_vehicle := v; ticket_spot := s |}),
       Lot (spot_heap w) (floor_heap w) (floors w) (globalId w + 1))
    else (Undefined, w).

(** The loop of parkVehicle over the floors, for the vehicle [v] behind the
    non-null pointer; after the loop the function reports that no spot is
    available and returns nullptr. *)
Fixpoint park_floors (v : Vehicle) (fls : list ptr) : M lot (option Ticket) :=
  match fls with
  | [] => ret None
  | floor :: rest =>
      (spot <- getAvailableSpot floor (vehicle_type v) ;;
       match spot with
       | None => park_floors v rest
       | Some _ =>
           ok <- assign_at spot (Some v) ;;
           if ok : bool then new_Ticket (Some v) spot else park_floors v rest
       end)%cpp
  end.

(** ParkingLot::parkVehicle. The vehicle pointer is dereferenced on every
    path, so a null vehicle is undefined. *)
Definition parkVehicle (vehicle : shared_ptr_Vehicle) : M lot (option Ticket) :=
  match vehicle with
  | None => fun w => (Undefined, w)
  | Some v => (w <- get ;; park_floors v (floors w))%cpp
  end.

(** ParkingLot::unparkVehicle: [ticket->spot->removeVehicle()], then the
    line with [ticket->vehicle->number]. *)
Definition unparkVehicle (ticket : option Ticket) : M lot unit :=
  fun w =>
    match ticket with
    | None => (Undefined, w)
    | Some t =>
        match ticket_spot t with
        | None => (Undefined, w)
        | Some a =>
            match spot_heap w !! a with
            | None => (Undefined, w)
            | Some s =>
                let w' := Lot (<[a := removeVehicle s]> (spot_heap w))
                              (floor_heap w) (floors w) (globalId w) in
                match ticket_vehicle t with
                | None => (Undefined, w')
                | Some _ => (Returns tt, w')
                end
            end
        end
    end.

(** The spot pointer points to a spot; the floor pointer points to a floor
    all of whose spot pointers do; every floor of the lot is such. *)
Definition spot_live (w : lot) (p : ptr) : Prop := is_Some (a ← p; spot_heap w !! a).

Definition floor_ok (w : lot) (f : ptr) : Prop :=
  match a ← f; floor_heap w !! a with
  | Some fl => Forall (spot_live w) (spots fl)
  | None => False
  end.

Definition well_formed (w : lot) : Prop := Forall (floor_ok w) (floors w).

#[global] Instance spot_live_dec (w : lot) (p : ptr) : Decision (spot_live w p).
Proof. unfold spot_live. apply _. Defined.

#[global] Instance floor_ok_dec (w : lot) (f : ptr) : Decision (floor_ok w f).
Proof. unfold floor_ok. destruct (a ← f; floor_heap w !! a); apply _. Defined.

#[global] Instance well_formed_dec (w : lot) : Decision (well_formed w).
Proof. unfold well_formed. apply _. Defined.

(** The pointer points to a spot that passes the test of the loop. *)
Definition fits_at (w : lot) (required : SpotType.t) (p : ptr) : bool :=
  match a ← p; spot_heap w !! a with
  | Some s => fits required s
  | None => false
  end.


(** The state after the vehicle [v] has taken the spot [s] at [a] and a
    ticket has been issued. *)
Definition parked (w : lot) (a : addr) (s : ParkingSpot) (v : Vehicle) : lot :=
  Lot (<[a := {| number := number s; type := type s;
                 isAvailable := false; currentVehicle := Some v |}]> (spot_heap w))
      (floor_heap w) (floors w) (globalId w + 1).

(** Every spot on the heap satisfies [P]. *)
Definition all_spots (P : ParkingSpot -> Prop) (w : lot) : Prop :=
  map_Forall (fun _ s => P s) (spot_heap w).

(** The first spot pointer of the list that passes the test, read off the
    state without running the loop. *)
Fixpoint first_fit (w : lot) (required : SpotType.t) (sps : list ptr) : ptr :=
  match sps with
  | [] => None
  | p :: rest => if fits_at w required p then p else first_fit w required rest
  end.

Definition floor_fit (w : lot) (required : SpotType.t) (f : ptr) : ptr :=
  match a ← f; floor_heap w !! a with
  | Some fl => first_fit w required (spots fl)
  | None => None
  end.

(** The first fitting spot of the first floor that has one. *)
Fixpoint lot_fit (w : lot) (required : SpotType.t) (fls : list ptr) : ptr :=
  match fls with
  | [] => None
  | f :: rest =>
      match floor_fit w required f with
      | Some a => Some a
      | None => lot_fit w required rest
      end
  end.

(** [r] is the first pointer of [sps] to a fitting spot: it fits and no
    pointer before it does; or [r] is null and no pointer of [sps] fits. *)
Definition is_first_fit (w : lot) (required : SpotType.t) (sps : list ptr) (r : ptr) : Prop :=
  match r with
  | Some a =>
      exists pre post,
        sps = (pre ++ Some a :: post)%list /\
        fits_at w required (Some a) = true /\
        Forall (fun p => fits_at w required p = false) pre
  | None => Forall (fun p => fits_at w required p = false) sps
  end.


(** The lot [main] sets up: one floor with spots 101 (car), 102 (bike) and
    103 (truck), added to the lot. *)
Definition main_setup : M lot unit :=
  (floor1 <- new_ParkingFloor ;;
   s101 <- createSpot SpotType.CAR 101 ;;
   addSpot floor1 s101 ;;;
   s102 <- createSpot SpotType.BIKE 102 ;;
   addSpot floor1 s102 ;;;
   s103 <- createSpot SpotType.TRUCK 103 ;;
   addSpot floor1 s103 ;;;
   addFloor floor1)%cpp.

Definition main_lot : lot := (main_setup (Lot ∅ ∅ [] 0)).2.

End Parking.

(** ** Bill splitting (Examples/split_wise.cpp) *)

Module SplitWise.

Record User : Set := { id : Z; name : string; email : string }.

(** The three users [main] adds. *)
Definition alice : User := {| id := 1; name := "Alice"; email := "alice@example.com" |}.
Definition bob : User := {| id := 2; name := "Bob"; email := "bob@example.com" |}.
Definition charlie : User := {| id := 3; name := "Charlie"; email := "charlie@example.com" |}.

(** shared_ptr<User>: [None] is the null pointer. *)
Abbreviation shared_ptr_User := (option User) (only parsing).

(** class SplitStrategy has the one subclass. *)
Inductive SplitStrategy : Set := EqualSplitStrategy.

(** [float] is IEEE binary32: 24 bits of precision, infinities at exponent
    128, in the Standard Library's executable specification of binary
    floating point. *)
Abbreviation float := spec_float (only parsing).

Definition fdiv (x y : float) : float := SFdiv 24 128 x y.

(** The conversion from [int], rounding to nearest even. *)
Definition of_int (n : Z) : float := binary_normalize 24 128 n 0 false.

(** [amount / n] with [n] an int: [n] is converted to float. A zero divisor
    makes the behaviour undefined ([expr.mul]); where the implementation
    follows IEEE 754 the quotient is then an infinity or a NaN. *)
Definition div (amount : float) (n : Z) : outcome float :=
  if n =? 0 then Undefined else Returns (fdiv amount (of_int n)).

(** [vector<float>(n, share)] with [n] an int: a negative [n] converts to a
    size above max_size() and the constructor throws. *)
Definition vector_fill (n : Z) (share : float) : outcome (list float) :=
  if n <? 0 then Throws length_error else Returns (repeat share (Z.to_nat n)).

(** EqualSplitStrategy::calculateExpensePerUser; [int n = users.size()]
    converts the size to int. *)
Definition calculateExpensePerUser (amount : float) (users : list shared_ptr_User)
    (values : list float) : outcome (list float) :=
  let n := to_int (Z.of_nat (length users)) in
  and_then (div amount n) (fun share =>
  vector_fill n share).

Record Expense : Type := {
  expense_id : Z;
  amount : float;
  paidBy : shared_ptr_User;
  participants : list shared_ptr_User;
  strategy : option SplitStrategy
}.

(** The loop of Expense::splitAmount from index [i] on:
    [splits[participants[i]->id] = shares[i]]. *)
Fixpoint assign_shares (splits : gmap Z float) (i : nat) (rest : list shared_ptr_User)
    (shares : list float) : outcome (gmap Z float) :=
  match rest with
  | [] => Returns splits
  | u :: rest' =>
      match u, shares !! i with
      | Some user, Some share =>
          assign_shares (<[id user := share]> splits) (S i) rest' shares
      | _, _ => Undefined
      end
  end.

(** Expense::splitAmount; the call through [strategy] is undefined when the
    pointer is null. *)
Definition splitAmount (e : Expense) : outcome (gmap Z float) :=
  match strategy e with
  | None => Undefined
  | Some EqualSplitStrategy =>
      and_then (calculateExpensePerUser (amount e) (participants e) []) (fun shares =>
      assign_shares ∅ 0 (participants e) shares)
  end.

(** The ids of the participants behind non-null pointers, in order. *)
Definition participant_ids (ps : list shared_ptr_User) : list Z :=
  omap (fun u : shared_ptr_User => id <$> u) ps.

(** *** Users and groups *)

(** class Group. *)
Record Group : Set := {
  group_id : Z;
  group_name : string;
  members : list shared_ptr_User
}.

(** The state of the services: the private map of UserService (only addUser
    stores into it, always a new user, so it is modelled as a map to the
    users themselves), the Group objects on the heap, the private map of
    GroupService to them, and what has been written to std::cout. Groups
    are modified through their shared pointers, so they are kept on a
    heap; an object is kept for as long as the program runs. *)
Record services : Type := Services {
  users : gmap Z User;
  group_heap : gmap addr Group;
  groups : gmap Z ptr;
  cout : string
}.

Definition print (s : string) : M services unit :=
  modify (fun w => Services (users w) (group_heap w) (groups w) (cout w ++ s)).

(** UserService::addUser: [users[id] = make_shared<User>(id, name, email)]. *)
Definition addUser (i : Z) (n e : string) : M services unit :=
  modify (fun w =>
            Services (<[i := {| id := i; name := n; email := e |}]> (users w))
                     (group_heap w) (groups w) (cout w)).

(** UserService::getUser: [users.count(id) ? users[id] : nullptr]. *)
Definition getUser (i : Z) : M services shared_ptr_User :=
  fun w =>
    match users w !! i with
    | Some u => (Returns (Some u), w)
    | None => (Returns None, w)
    end.

(** GroupService::createGroup: [groups[id] = make_shared<Group>(id, name)]. *)
Definition createGroup (i : Z) (n : string) : M services unit :=
  fun w =>
    let (a, h) := alloc (group_heap w) {| group_id := i; group_name := n; members := [] |} in
    (Returns tt, Services (users w) h (<[i := Some a]> (groups w)) (cout w)).

(** Group::addMember through the pointer [g]. *)
Definition addMember (g : ptr) (user : shared_ptr_User) : M services unit :=
  fun w =>
    match g with
    | None => (Undefined, w)
    | Some a =>
        match group_heap w !! a with
        | Some grp =>
            (Returns tt,
             Services (users w)
                      (<[a := {| group_id := group_id grp; group_name := group_name grp;
                                 members := members grp ++ [user] |}]> (group_heap w))
                      (groups w) (cout w))
        | None => (Undefined, w)
        end
    end.

(** GroupService::addUserToGroup. *)
Definition addUserToGroup (groupId : Z) (user : shared_ptr_User) : M services unit :=
  fun w =>
    match groups w !! groupId with
    | Some g => addMember g user w
    | None => (Returns tt, w)
    end.

(** GroupService::getGroup. *)
Definition getGroup (i : Z) : M services ptr :=
  fun w =>
    match groups w !! i with
    | Some g => (Returns g, w)
    | None => (Returns None, w)
    end.

(** The loop of Group::showMembers: a null member is dereferenced. *)
Fixpoint show_each (ms : list shared_ptr_User) : M services unit :=
  match ms with
  | [] => ret tt
  | None :: _ => fun w => (Undefined, w)
  | Some user :: rest =>
      (print ("- " ++ name user ++ " (" ++ email user ++ ")" ++ endl) ;;;
       show_each rest)%cpp
  end.

(** Group::showMembers through the pointer [g]. *)
Definition showMembers (g : ptr) : M services unit :=
  fun w =>
    match g with
    | None => (Undefined, w)
    | Some a =>
        match group_heap w !! a with
        | Some grp =>
            (print ("Group: " ++ group_name grp ++ " [ID: " ++ pretty (group_id grp)
                    ++ "] Members:" ++ endl) ;;;
             show_each (members grp))%cpp w
        | None => (Undefined, w)
        end
    end.

(** GroupService::showGroup. *)
Definition showGroup (i : Z) : M services unit :=
  fun w =>
    match groups w !! i with
    | Some g => showMembers g w
    | None => print ("Group not found." ++ endl) w
    end.

(** The members of the group behind [g]. *)
Definition members_at (w : services) (g : ptr) : option (list shared_ptr_User) :=
  a ← g; members <$> group_heap w !! a.

End SplitWise.

(** ** Observer: the weather station (the observer example) *)

Module Weather.

(** class Observer and its two subclasses (no data members). *)
Inductive Observer : Set := PhoneDisplay | WebDashboard.

(** A line written by [update]: which display wrote it and the temperature
    it was given. The text around the number is fixed by the class; how
    operator<< formats the float is not modelled. *)
Record line : Set := shown { display : Observer; reading : spec_float }.

(** The program state: the Observer objects on the heap, the members of the
    one WeatherStation and the lines written. [temperature] has no
    initialiser: it is [None] until setTemperature has run. *)
Record world : Type := World {
  heap : gmap addr Observer;
  observers : list ptr;
  temperature : option spec_float;
  cout : list line
}.

(** [new PhoneDisplay()] and [new WebDashboard()]. *)
Definition new_ (o : Observer) : M world ptr :=
  fun w =>
    let (a, h) := alloc (heap w) o in
    (Returns (Some a), World h (observers w) (temperature w) (cout w)).

(** [delete obs]. *)
Definition delete_ (obs : ptr) : M world unit :=
  fun w =>
    match obs with
    | None => (Returns tt, w)
    | Some a =>
        match heap w !! a with
        | Some _ => (Returns tt, World (delete a (heap w)) (observers w) (temperature w) (cout w))
        | None => (Undefined, w)
        end
    end.

(** WeatherStation::addObserver. *)
Definition addObserver (obs : ptr) : M world unit :=
  modify (fun w => World (heap w) (observers w ++ [obs]) (temperature w) (cout w)).

(** WeatherStation::removeObserver: std::remove moves the pointers unequal
    to [obs] to the front in their order, erase drops the rest. *)
Definition removeObserver (obs : ptr) : M world unit :=
  modify (fun w =>
            World (heap w) (filter (fun p => p <> obs) (observers w))
                  (temperature w) (cout w)).

(** [obs->update(t)], dispatched on the class of the object. *)
Definition update (obs : ptr) (t : spec_float) : M world unit :=
  fun w =>
    match obs with
    | None => (Undefined, w)
    | Some a =>
        match heap w !! a with
        | Some PhoneDisplay =>
            (Returns tt,
             World (heap w) (observers w) (temperature w) (cout w ++ [shown PhoneDisplay t]))
        | Some WebDashboard =>
            (Returns tt,
             World (heap w) (observers w) (temperature w) (cout w ++ [shown WebDashboard t]))
        | None => (Undefined, w)
        end
    end.

(** The loop of notifyObservers; the member [temperature] is read for each
    observer, which is undefined while it is uninitialised. *)
Fixpoint notify_each (obss : list ptr) : M world unit :=
  match obss with
  | [] => ret tt
  | obs :: rest =>
      (w <- get ;;
       match temperature w with
       | None => fun w' => (Undefined, w')
       | Some t => update obs t
       end ;;;
       notify_each rest)%cpp
  end.

(** WeatherStation::notifyObservers. *)
Definition notifyObservers : M world unit :=
  (w <- get ;; notify_each (observers w))%cpp.

(** WeatherStation::setTemperature. *)
Definition setTemperature (temp : spec_float) : M world unit :=
  (modify (fun w => World (heap w) (observers w) (Some temp) (cout w)) ;;;
   notifyObservers)%cpp.

(** The pointer points to an observer. *)
Definition live (w : world) (p : ptr) : Prop := is_Some (a ← p; heap w !! a).

#[global] Instance live_dec (w : world) (p : ptr) : Decision (live w p).
Proof. unfold live. apply _. Defined.

(** The line each registered observer writes for the temperature [t]. *)
Definition lines_for (w : world) (t : spec_float) (obss : list ptr) : list line :=
  omap (fun p : ptr => a ← p; o ← heap w !! a; Some (shown o t)) obss.

(** [addObserver(obs)] called [k] times in a row. *)
Fixpoint add_times (k : nat) (obs : ptr) : M world unit :=
  match k with
  | O => ret tt
  | S k' => (addObserver obs ;;; add_times k' obs)%cpp
  end.

End Weather.

(** ** Decorator: coffee and its add-ons (decorator_pattern.cpp) *)

Module Decorator.

(** class Coffee with its subclasses. A decorator holds the pointer
    [coffee] it was constructed with and never changes it; the object
    behind it is not modified either, so the pointer is modelled by the
    value it points to, [None] being the null pointer. *)
#[warnings="-register-all"]
Inductive Coffee : Set :=
| SimpleCoffee
| MilkDecorator (coffee : option Coffee)
| SugarDecorator (coffee : option Coffee)
| WhippedCreamDecorator (coffee : option Coffee).

(** [cost()]: a decorator adds its price to [coffee->cost()], in binary64
    arithmetic; the call through a null [coffee] is undefined. *)
Fixpoint cost (c : Coffee) : outcome float :=
  match c with
  | SimpleCoffee => Returns 5.0%float
  | MilkDecorator coffee =>
      match coffee with
      | Some inner => and_then (cost inner) (fun x => Returns (x + 1.5)%float)
      | None => Undefined
      end
  | SugarDecorator coffee =>
      match coffee with
      | Some inner => and_then (cost inner) (fun x => Returns (x + 0.5)%float)
      | None => Undefined
      end
  | WhippedCreamDecorator coffee =>
      match coffee with
      | Some inner => and_then (cost inner) (fun x => Returns (x + 2.0)%float)
      | None => Undefined
      end
  end.

Fixpoint description (c : Coffee) : outcome string :=
  match c with
  | SimpleCoffee => Returns "Simple Coffee"
  | MilkDecorator coffee =>
      match coffee with
      | Some inner => and_then (description inner) (fun s => Returns (s ++ ", Milk"))
      | None => Undefined
      end
  | SugarDecorator coffee =>
      match coffee with
      | Some inner => and_then (description inner) (fun s => Returns (s ++ ", Sugar"))
      | None => Undefined
      end
  | WhippedCreamDecorator coffee =>
      match coffee with
      | Some inner => and_then (description inner) (fun s => Returns (s ++ ", Whipped Cream"))
      | None => Undefined
      end
  end.

(** The add-ons a client applies, as main does with
    [myCoffee = new MilkDecorator(myCoffee)] and the like. *)
Inductive addon : Set := Milk | Sugar | WhippedCream.

Definition decorate (c : Coffee) (d : addon) : Coffee :=
  match d with
  | Milk => MilkDecorator (Some c)
  | Sugar => SugarDecorator (Some c)
  | WhippedCream => WhippedCreamDecorator (Some c)
  end.

(** The add-ons applied in order to a simple coffee. *)
Definition order (ds : list addon) : Coffee := fold_left decorate ds SimpleCoffee.

Definition price (d : addon) : float :=
  match d with
  | Milk => 1.5%float
  | Sugar => 0.5%float
  | WhippedCream => 2.0%float
  end.

Definition label (d : addon) : string :=
  match d with
  | Milk => ", Milk"
  | Sugar => ", Sugar"
  | WhippedCream => ", Whipped Cream"
  end.

End Decorator.

(** * Properties *)

(** ** Shipping and furniture factories *)

Module FactoryProofs.

Import Shipping.

Lemma valid_tag_false (tag : Z) :
  valid_tag tag = false <-> tag <> 1 /\ tag <> 2 /\ tag <> 3.
Proof.
  unfold valid_tag. rewrite !orb_false_iff, !Z.eqb_neq. tauto.
Qed.

Lemma static_else_branch (tag : Z) :
  tag <> 1 -> tag <> 2 -> StaticFactory.createShippingMethod tag = Returns GroundShipping.
Proof.
  intros H1 H2. unfold StaticFactory.createShippingMethod.
  apply Z.eqb_neq in H1, H2. now rewrite H1, H2.
Qed.

Lemma select_else_branch (tag : Z) :
  tag <> 1 -> tag <> 2 -> FactoryMethod.select_factory tag = FactoryMethod.GroundShippingFactory.
Proof.
  intros H1 H2. unfold FactoryMethod.select_factory.
  apply Z.eqb_neq in H1, H2. now rewrite H1, H2.
Qed.

Lemma furniture_else_branch (choice : Z) :
  choice <> 1 -> Furniture.select_factory choice = Furniture.ModernFurnitureFactory.
Proof.
  intros H1. unfold Furniture.select_factory.
  apply Z.eqb_neq in H1. now rewrite H1.
Qed.

Lemma returns_not_fails {A} (a : A) : ~ fails (Returns a).
Proof. intros H. now apply (H a). Qed.

(** C1, as stated, fails: the tag 7 is outside both enumerations, yet the
    static factory and the factory main selects return the Ground product
    for it, the furniture main creates the Modern chair and sofa for it,
    and no call fails. *)
Lemma unknown_tag_is_not_rejected :
  valid_tag 7 = false /\ Furniture.valid_tag 7 = false /\
  StaticFactory.createShippingMethod 7 = Returns GroundShipping /\
  FactoryMethod.createShippingMethod (FactoryMethod.select_factory 7) = Returns GroundShipping /\
  Furniture.create_products 7 = Returns (Furniture.ModernChair, Furniture.ModernSofa) /\
  ~ (forall tag, valid_tag tag = false -> fails (StaticFactory.createShippingMethod tag)) /\
  ~ (forall tag, Furniture.valid_tag tag = false -> fails (Furniture.create_products tag)).
Proof.
  repeat split; try reflexivity.
  - intros H. exact (returns_not_fails GroundShipping (H 7 eq_refl)).
  - intros H.
    exact (returns_not_fails (Furniture.ModernChair, Furniture.ModernSofa) (H 7 eq_refl)).
Qed.

(** C1, amended: creation has no error path. For every shipping choice
    outside 1, 2, 3 the static factory and the factory selected in main
    return the Ground product; for every furniture choice outside 1, 2 main
    selects the Modern factory and creates the Modern chair and sofa. *)
Theorem unknown_tag_takes_else_branch (shippingChoice furnitureChoice : Z)
    (Hs : valid_tag shippingChoice = false)
    (Hf : Furniture.valid_tag furnitureChoice = false) :
  StaticFactory.createShippingMethod shippingChoice = Returns GroundShipping /\
  FactoryMethod.createShippingMethod (FactoryMethod.select_factory shippingChoice) = Returns GroundShipping /\
  Furniture.select_factory furnitureChoice = Furniture.ModernFurnitureFactory /\
  Furniture.create_products furnitureChoice
    = Returns (Furniture.ModernChair, Furniture.ModernSofa).
Proof.
  apply valid_tag_false in Hs. destruct Hs as (H1 & H2 & _).
  unfold Furniture.valid_tag in Hf. apply orb_false_iff in Hf.
  destruct Hf as [Hf1 _]. apply Z.eqb_neq in Hf1.
  split; [|split; [|split]].
  - now apply static_else_branch.
  - now rewrite select_else_branch.
  - now apply furniture_else_branch.
  - unfold Furniture.create_products. now rewrite furniture_else_branch.
Qed.

Lemma unknown_tag_takes_else_branch_witness :
  StaticFactory.createShippingMethod 0 = Returns GroundShipping /\
  FactoryMethod.createShippingMethod (FactoryMethod.select_factory 0) = Returns GroundShipping /\
  Furniture.select_factory (-4) = Furniture.ModernFurnitureFactory /\
  Furniture.create_products (-4) = Returns (Furniture.ModernChair, Furniture.ModernSofa).
Proof. apply (unknown_tag_takes_else_branch 0 (-4)); reflexivity. Defined.

(** C6: the product created for choice 1 is the Air product, from the static
    factory and from the factory main selects, and its cost is
    weight * distance * 0.5 in binary64 arithmetic; at weight 10 and
    distance 500 that is 2500. *)
Theorem air_shipping_cost (weight distance : float) :
  StaticFactory.createShippingMethod 1 = Returns AirShipping /\
  FactoryMethod.createShippingMethod (FactoryMethod.select_factory 1) = Returns AirShipping /\
  and_then (StaticFactory.createShippingMethod 1)
           (fun m => Returns (calculateShippingCost m weight distance))
    = Returns (weight * distance * 0.5)%float /\
  calculateShippingCost AirShipping weight distance = (weight * distance * 0.5)%float /\
  calculateShippingCost AirShipping 10 500 = 2500%float.
Proof. repeat split. Qed.

Import Furniture.

(** C4: on either concrete factory, createChair and createSofa give the
    chair and the sofa of that factory's family: their lines name that
    family and never the other one. Choice 1 yields the Victorian chair and
    sofa, choice 2 the Modern chair and sofa. *)
Theorem furniture_family_consistent (f : FurnitureFactory) :
  sitOn (createChair f) = "Sitting on a " ++ family f ++ " chair." ++ endl /\
  lieOn (createSofa f) = "Lying on a " ++ family f ++ " sofa." ++ endl /\
  (forall g, reports (family g) (sitOn (createChair f)) = bool_decide (family g = family f)) /\
  (forall g, reports (family g) (lieOn (createSofa f)) = bool_decide (family g = family f)) /\
  create_products 1 = Returns (VictorianChair, VictorianSofa) /\
  create_products 2 = Returns (ModernChair, ModernSofa).
Proof.
  destruct f; repeat split; try (intros []); reflexivity.
Qed.

End FactoryProofs.

(** ** Allocation *)

Section Alloc.

Context {T : Type}.
Implicit Types (h : gmap addr T) (v : T).

Lemma alloc_fresh h v : (alloc h v).1 ∉ dom h.
Proof. unfold alloc. cbn [fst snd]. apply is_fresh. Qed.

Lemma alloc_lookup_new h v : (alloc h v).2 !! (alloc h v).1 = Some v.
Proof. unfold alloc. cbn [fst snd]. apply lookup_insert_eq. Qed.

Lemma alloc_lookup_old h v b : b ∈ dom h -> (alloc h v).2 !! b = h !! b.
Proof.
  intros Hb. unfold alloc. cbn [fst snd]. apply lookup_insert_ne.
  intros Heq. subst b. exact (is_fresh (dom h) Hb).
Qed.

Lemma alloc_lookup_ne h v b : b ≠ (alloc h v).1 -> (alloc h v).2 !! b = h !! b.
Proof. intros Hb. unfold alloc in *. cbn [fst snd] in *. now apply lookup_insert_ne. Qed.

Lemma alloc_dom h v : dom (alloc h v).2 = {[ (alloc h v).1 ]} ∪ dom h.
Proof. unfold alloc. cbn [fst snd]. apply dom_insert_L. Qed.

End Alloc.

(** ** Prototype registry *)

Module PrototypeProofs.

Import Prototype.

Lemma clone_copies (w : world) (a : addr) (c : Character) :
  heap w !! a = Some c ->
  clone (Some a) w =
    (Returns (Some (alloc (heap w) c).1), World (alloc (heap w) c).2 (prototypes w)).
Proof.
  intros Hc. unfold clone, bind, deref. rewrite Hc.
  destruct c; reflexivity.
Qed.

Lemma getPrototype_registered (w : world) (type : string) (a : addr) (c : Character) :
  prototypes w !! type = Some (Some a) -> heap w !! a = Some c ->
  getPrototype type w =
    (Returns (Some (alloc (heap w) c).1), World (alloc (heap w) c).2 (prototypes w)).
Proof.
  intros Hr Hc. unfold getPrototype, bind, prototypes_at. rewrite Hr.
  now apply clone_copies.
Qed.

Lemma mutate_heap_ne (w : world) (q b : addr) (c : Character) :
  b ≠ q -> heap (mutate q c w) !! b = heap w !! b.
Proof.
  intros Hb. unfold mutate. destruct (heap w !! q); [|reflexivity].
  simpl. now apply lookup_insert_ne.
Qed.

Lemma mutate_prototypes (w : world) (q : addr) (c : Character) :
  prototypes (mutate q c w) = prototypes w.
Proof. unfold mutate. now destruct (heap w !! q). Qed.

Lemma mutate_heap_eq (w : world) (q : addr) (c c0 : Character) :
  heap w !! q = Some c0 -> heap (mutate q c w) !! q = Some c.
Proof. intros H. unfold mutate. rewrite H. simpl. apply lookup_insert_eq. Qed.

(** C2: register a live exemplar under a tag and clone that tag. The call
    returns a pointer [q] to a new object (an address no object had before:
    not the exemplar, not an earlier clone) that equals the exemplar, so it
    is of the same class and shows the same details; the registry still
    maps the tag to the exemplar; every older object is unchanged by the
    clone, and stays unchanged, with the registry, under any mutation of
    the clone, which does take effect on the clone itself. *)
Theorem clone_of_registered_is_independent_copy
    (w : world) (type : string) (a : addr) (exemplar : Character)
    (Hlive : heap w !! a = Some exemplar) :
  exists (q : addr) (w' : world),
    (addPrototype type (Some a) ;;; getPrototype type)%cpp w = (Returns (Some q), w') /\
    (q ∉ dom (heap w)) /\ (q ≠ a) /\
    heap w' !! q = Some exemplar /\
    shows w' (Some q) = Some (showDetails exemplar) /\
    shows w' (Some q) = shows w (Some a) /\
    prototypes w' !! type = Some (Some a) /\
    (forall b, b ∈ dom (heap w) -> heap w' !! b = heap w !! b) /\
    (forall c,
        heap (mutate q c w') !! q = Some c /\
        prototypes (mutate q c w') = prototypes w' /\
        heap (mutate q c w') !! a = Some exemplar /\
        forall b, b ∈ dom (heap w) -> heap (mutate q c w') !! b = heap w !! b).
Proof.
  set (w1 := World (heap w) (<[type := Some a]> (prototypes w))).
  assert (Hreg : prototypes w1 !! type = Some (Some a)) by apply lookup_insert_eq.
  pose proof (getPrototype_registered w1 type a exemplar Hreg Hlive) as Hget.
  pose proof (alloc_fresh (heap w) exemplar) as Hfresh.
  assert (Ha : a ∈ dom (heap w)) by (apply elem_of_dom; eauto).
  assert (Hne : forall b, b ∈ dom (heap w) -> b ≠ (alloc (heap w) exemplar).1)
    by (intros b Hb Heq; subst b; contradiction).
  exists (alloc (heap w) exemplar).1, (World (alloc (heap w) exemplar).2 (prototypes w1)).
  split; [exact Hget|].
  assert (Hq : heap (World (alloc (heap w) exemplar).2 (prototypes w1))
               !! (alloc (heap w) exemplar).1 = Some exemplar)
    by apply alloc_lookup_new.
  split; [exact Hfresh|].
  split; [intros Heq; apply Hfresh; now rewrite Heq|].
  split; [exact Hq|].
  split; [unfold shows; cbn [mbind option_bind]; now rewrite Hq|].
  split; [unfold shows; cbn [mbind option_bind]; now rewrite Hq, Hlive|].
  split; [exact Hreg|].
  split; [intros b Hb; now apply alloc_lookup_old|].
  intros c. split; [now apply (mutate_heap_eq _ _ _ exemplar)|].
  split; [apply mutate_prototypes|].
  split.
  - rewrite mutate_heap_ne by now apply Hne. cbn [heap].
    rewrite alloc_lookup_old by exact Ha. exact Hlive.
  - intros b Hb. rewrite mutate_heap_ne by now apply Hne. cbn [heap].
    now apply alloc_lookup_old.
Qed.

Lemma clone_of_registered_is_independent_copy_witness :
  exists (q : addr) (w' : world),
    (addPrototype "warrior" (Some 1%positive) ;;; getPrototype "warrior")%cpp
      (World {[ 1%positive := Warrior "Conan" ]} ∅) = (Returns (Some q), w') /\
    heap w' !! q = Some (Warrior "Conan") /\
    forall c, heap (mutate q c w') !! 1%positive = Some (Warrior "Conan").
Proof.
  assert (Hlive : heap (World {[ 1%positive := Warrior "Conan" ]} ∅) !! 1%positive
                  = Some (Warrior "Conan")) by (vm_compute; reflexivity).
  destruct (clone_of_registered_is_independent_copy
              (World {[ 1%positive := Warrior "Conan" ]} ∅) "warrior" 1%positive
              (Warrior "Conan") Hlive)
    as (q & w' & Hrun & _ & _ & Hq & _ & _ & _ & _ & Hmut).
  exists q, w'. split; [exact Hrun|]. split; [exact Hq|].
  intros c. exact (proj1 (proj2 (proj2 (Hmut c)))).
Defined.

(** Two clones issued in a row are distinct objects: a mutation of the
    second leaves the first as it was. *)
Lemma later_clone_leaves_earlier_clone
    (w : world) (type : string) (a : addr) (exemplar c : Character) :
  prototypes w !! type = Some (Some a) -> heap w !! a = Some exemplar ->
  exists q1 q2 w1 w2,
    getPrototype type w = (Returns (Some q1), w1) /\
    getPrototype type w1 = (Returns (Some q2), w2) /\
    (q1 ≠ q2) /\ heap (mutate q2 c w2) !! q1 = Some exemplar.
Proof.
  intros Hreg Hlive.
  pose proof (getPrototype_registered w type a exemplar Hreg Hlive) as H1.
  set (q1 := (alloc (heap w) exemplar).1) in *.
  set (w1 := World (alloc (heap w) exemplar).2 (prototypes w)) in *.
  assert (Ha : a ∈ dom (heap w)) by (apply elem_of_dom; eauto).
  assert (Hlive1 : heap w1 !! a = Some exemplar)
    by (subst w1; cbn [heap]; rewrite alloc_lookup_old; assumption).
  pose proof (getPrototype_registered w1 type a exemplar Hreg Hlive1) as H2.
  assert (Hq1 : heap w1 !! q1 = Some exemplar) by apply alloc_lookup_new.
  assert (Hne : q1 ≠ (alloc (heap w1) exemplar).1).
  { intros Heq. apply (alloc_fresh (heap w1) exemplar). rewrite <- Heq.
    apply elem_of_dom. eauto. }
  eexists _, _, _, _. split; [exact H1|]. split; [exact H2|]. split; [exact Hne|].
  rewrite mutate_heap_ne by exact Hne. cbn [heap].
  rewrite alloc_lookup_ne by exact Hne. exact Hq1.
Qed.

(** C7: looking up a tag with no entry in the registry throws
    std::out_of_range (the error of unordered_map::at, which is how the
    code reports an unknown variant): no pointer is returned, and the
    registry and the heap are as before the call. *)
Theorem lookup_of_unregistered_tag_throws (w : world) (type : string)
    (Hmissing : prototypes w !! type = None) :
  getPrototype type w = (Throws out_of_range, w) /\
  fails (getPrototype type w).1 /\
  prototypes (getPrototype type w).2 = prototypes w /\
  heap (getPrototype type w).2 = heap w.
Proof.
  assert (H : getPrototype type w = (Throws out_of_range, w)).
  { unfold getPrototype, bind, prototypes_at. now rewrite Hmissing. }
  rewrite H. repeat split. intros p Hp. discriminate Hp.
Qed.

Lemma lookup_of_unregistered_tag_throws_witness :
  getPrototype "rogue" (World {[ 1%positive := Warrior "Conan" ]}
                              {[ "warrior" := Some 1%positive ]})
  = (Throws out_of_range, World {[ 1%positive := Warrior "Conan" ]}
                                {[ "warrior" := Some 1%positive ]}).
Proof.
  apply (lookup_of_unregistered_tag_throws
           (World {[ 1%positive := Warrior "Conan" ]}
                  {[ "warrior" := Some 1%positive ]}) "rogue").
  vm_compute. reflexivity.
Defined.

End PrototypeProofs.

(** ** Meal builders and the director *)

Module BuilderProofs.

Import Builder.

Lemma addDish_live (h : heap) (a : addr) (m : Meal) (dish : string) :
  h !! a = Some m ->
  addDish (Some a) dish h = (Returns tt, <[a := {| dishes := dishes m ++ [dish] |}]> h).
Proof. intros Hm. unfold addDish. now rewrite Hm. Qed.

Lemma run_step_live (b : MealBuilder) (s : step) (h : heap) (a : addr) (m : Meal) :
  meal_of b = Some a -> h !! a = Some m ->
  run_step b s h = (Returns tt, <[a := {| dishes := dishes m ++ [dish_of b s] |}]> h).
Proof.
  intros Hb Hm. destruct b as [p|p]; simpl in Hb; subst p;
    destruct s; simpl; now apply addDish_live.
Qed.

(** The steps append their dishes, in call order, to the builder's meal and
    touch no other object. *)
Lemma run_steps_live (b : MealBuilder) (a : addr) (ss : list step) :
  meal_of b = Some a ->
  forall (h : heap) (m : Meal), h !! a = Some m ->
  run_steps b ss h = (Returns tt, <[a := {| dishes := dishes m ++ map (dish_of b) ss |}]> h).
Proof.
  intros Hb. induction ss as [|s ss IH]; intros h m Hm.
  - simpl. unfold ret. f_equal. symmetry. apply insert_id.
    rewrite Hm. destruct m as [ds]. simpl. now rewrite app_nil_r.
  - cbn [run_steps]. unfold bind.
    rewrite (run_step_live b s h a m Hb Hm).
    rewrite (IH _ {| dishes := dishes m ++ [dish_of b s] |}) by apply lookup_insert_eq.
    rewrite insert_insert_eq. cbn [dishes map].
    now rewrite <- app_assoc.
Qed.

Lemma getMeal_total (b : MealBuilder) (h : heap) : getMeal b h = (Returns (meal_of b), h).
Proof. now destruct b. Qed.

Lemma constructMeal_as_steps (b : MealBuilder) (h : heap) :
  constructMeal b h = (run_steps b [MainDish; SideDish; Drink] ;;; getMeal b)%cpp h.
Proof.
  unfold constructMeal. cbn [run_steps run_step]. unfold bind, ret.
  destruct (buildMainDish b h) as [[[]| |] h1]; try reflexivity.
  destruct (buildSideDish b h1) as [[[]| |] h2]; try reflexivity.
  destruct (buildDrink b h2) as [[[]| |] h3]; reflexivity.
Qed.

Lemma steps_then_getMeal (b : MealBuilder) (a : addr) (ss : list step) (h : heap) :
  meal_of b = Some a -> h !! a = Some {| dishes := [] |} ->
  exists h',
    (run_steps b ss ;;; getMeal b)%cpp h = (Returns (Some a), h') /\
    dishes_at h' (Some a) = Some (map (dish_of b) ss).
Proof.
  intros Hb Hm. eexists. unfold bind.
  rewrite (run_steps_live b a ss Hb h _ Hm), getMeal_total, Hb.
  split; [reflexivity|].
  unfold dishes_at. cbn [mbind option_bind]. now rewrite lookup_insert_eq.
Qed.

(** C3, as stated, fails: on a newly constructed Vegetarian builder getMeal,
    called before any step, returns the pointer to the empty Meal, and
    after the main dish only, the Meal with that one dish; no call fails. *)
Lemma getMeal_before_steps_returns_partial_meal :
  (b <- new_VegetarianMealBuilder ;; getMeal b)%cpp ∅
    = (Returns (Some 1%positive), {[ 1%positive := {| dishes := [] |} ]}) /\
  (b <- new_VegetarianMealBuilder ;; buildMainDish b ;;; getMeal b)%cpp ∅
    = (Returns (Some 1%positive), {[ 1%positive := {| dishes := ["Vegetarian Burger"] |} ]}) /\
  all_required [] = false /\ all_required [MainDish] = false /\
  ~ (forall (b : MealBuilder) (ss : list step) (h : heap),
        all_required ss = false -> fails ((run_steps b ss ;;; getMeal b)%cpp h).1).
Proof.
  split; [|split; [|split; [|split]]]; try (vm_compute; reflexivity).
  intros H.
  apply (H (VegetarianMealBuilder (Some 1%positive)) []
            {[ 1%positive := {| dishes := [] |} ]} eq_refl (Some 1%positive)).
  reflexivity.
Qed.

(** C3, amended: getMeal has no completeness check and never fails. On a
    newly constructed builder of either kind, after any sequence of step
    calls, it returns the builder's Meal, which holds exactly the dishes of
    the steps called so far, in call order (none before the first step);
    after the director's three steps it holds main dish, side dish and
    drink. *)
Theorem getMeal_returns_the_dishes_so_far
    (vegetarian : bool) (ss : list step) (h : heap) (any : MealBuilder) :
  getMeal any h = (Returns (meal_of any), h) /\
  exists (b : MealBuilder) (a : addr) (h0 h1 h2 : heap),
    (if vegetarian then new_VegetarianMealBuilder else new_NonVegetarianMealBuilder) h
      = (Returns b, h0) /\
    meal_of b = Some a /\
    (run_steps b ss ;;; getMeal b)%cpp h0 = (Returns (Some a), h1) /\
    dishes_at h1 (Some a) = Some (map (dish_of b) ss) /\
    constructMeal b h0 = (Returns (Some a), h2) /\
    dishes_at h2 (Some a) = Some [dish_of b MainDish; dish_of b SideDish; dish_of b Drink].
Proof.
  split; [apply getMeal_total|].
  set (a := (alloc h {| dishes := [] |}).1).
  set (h0 := (alloc h {| dishes := [] |}).2).
  assert (Hm : h0 !! a = Some {| dishes := [] |}) by apply alloc_lookup_new.
  set (b := if vegetarian then VegetarianMealBuilder (Some a)
            else NonVegetarianMealBuilder (Some a)).
  assert (Hb : meal_of b = Some a) by (subst b; now destruct vegetarian).
  destruct (steps_then_getMeal b a ss h0 Hb Hm) as (h1 & Hrun1 & Hd1).
  destruct (steps_then_getMeal b a [MainDish; SideDish; Drink] h0 Hb Hm) as (h2 & Hrun2 & Hd2).
  exists b, a, h0, h1, h2.
  split; [subst b; now destruct vegetarian|].
  split; [exact Hb|]. split; [exact Hrun1|]. split; [exact Hd1|].
  split; [now rewrite constructMeal_as_steps|exact Hd2].
Qed.

(** C5: a newly constructed Vegetarian builder, run by the director, yields
    a Meal whose dishes are Vegetarian Burger, Salad, Lemonade, in that
    order. *)
Theorem director_builds_vegetarian_meal (h : heap) :
  exists (p : ptr) (h' : heap),
    (b <- new_VegetarianMealBuilder ;; constructMeal b)%cpp h = (Returns p, h') /\
    dishes_at h' p = Some ["Vegetarian Burger"; "Salad"; "Lemonade"] /\
    shown_at h' p = Some ("Meal includes: Vegetarian Burger Salad Lemonade " ++ endl).
Proof.
  set (a := (alloc h {| dishes := [] |}).1).
  set (h0 := (alloc h {| dishes := [] |}).2).
  assert (Hm : h0 !! a = Some {| dishes := [] |}) by apply alloc_lookup_new.
  destruct (steps_then_getMeal (VegetarianMealBuilder (Some a)) a
              [MainDish; SideDish; Drink] h0 eq_refl Hm) as (h' & Hrun & Hd).
  exists (Some a), h'. split; [|split; [exact Hd|]].
  - rewrite <- constructMeal_as_steps in Hrun. exact Hrun.
  - unfold dishes_at, shown_at in *. cbn [mbind option_bind] in *.
    destruct (h' !! a) as [[ds]|]; [|discriminate Hd].
    cbn in Hd. injection Hd as ->. reflexivity.
Qed.

End BuilderProofs.

(** ** The singleton connection *)

Module SingletonProofs.

Import Singleton.

Lemma getInstance_first (w : world) (connectionStr : string) :
  instance w = nullptr ->
  getInstance connectionStr w =
    (Returns (Some (alloc (heap w) {| connectionString := connectionStr |}).1),
     connected w connectionStr).
Proof.
  intros Hnull. unfold getInstance, bind, get. rewrite Hnull. reflexivity.
Qed.

Lemma getInstance_again (w : world) (connectionStr : string) (a : addr) :
  instance w = Some a -> getInstance connectionStr w = (Returns (Some a), w).
Proof.
  intros Hset. unfold getInstance, bind, get. rewrite Hset. unfold ret.
  now rewrite Hset.
Qed.

Lemma calls_again (w : world) (a : addr) (strs : list string) :
  instance w = Some a -> calls strs w = (Returns (repeat (Some a) (length strs)), w).
Proof.
  intros Hset. induction strs as [|s strs IH]; [reflexivity|].
  cbn [calls length repeat]. unfold bind.
  rewrite (getInstance_again w s a Hset), IH. reflexivity.
Qed.

(** C8: from a state where [instance] is null, the first getInstance call
    constructs the connection from its argument and returns it; from then
    on every call, whatever its argument, returns that same pointer and
    changes nothing, so the connection string stays the first one. Two
    call sequences with the same first string and as many further calls
    return the same pointers and end in the same state. *)
Theorem getInstance_is_idempotent
    (w : world) (first : string) (rest1 rest2 : list string)
    (Hnull : instance w = nullptr) (Hlen : length rest1 = length rest2) :
  exists (a : addr) (w1 : world),
    getInstance first w = (Returns (Some a), w1) /\
    instance w1 = Some a /\
    connection_of w1 (Some a) = Some first /\
    (forall s, getInstance s w1 = (Returns (Some a), w1)) /\
    calls (first :: rest1) w = (Returns (repeat (Some a) (S (length rest1))), w1) /\
    calls (first :: rest2) w = (Returns (repeat (Some a) (S (length rest2))), w1) /\
    calls (first :: rest1) w = calls (first :: rest2) w.
Proof.
  pose proof (getInstance_first w first Hnull) as Hfirst.
  set (a := (alloc (heap w) {| connectionString := first |}).1) in *.
  assert (Hset : instance (connected w first) = Some a) by reflexivity.
  assert (Hcalls : forall rest,
             calls (first :: rest) w
             = (Returns (repeat (Some a) (S (length rest))), connected w first)).
  { intros rest. cbn [calls]. unfold bind. rewrite Hfirst.
    now rewrite (calls_again _ a rest Hset). }
  exists a, (connected w first).
  split; [exact Hfirst|]. split; [exact Hset|].
  split.
  { unfold connection_of, connected. cbn [mbind option_bind heap].
    subst a. now rewrite alloc_lookup_new. }
  split; [intros s; now apply getInstance_again|].
  split; [apply Hcalls|]. split; [apply Hcalls|].
  now rewrite !Hcalls, Hlen.
Qed.

Lemma getInstance_is_idempotent_witness :
  exists (a : addr) (w1 : world),
    getInstance "Server=myServerAddress;Database=myDataBase;" initial
      = (Returns (Some a), w1) /\
    connection_of w1 (Some a) = Some "Server=myServerAddress;Database=myDataBase;" /\
    calls ["Server=myServerAddress;Database=myDataBase;"; "Different Connection String"] initial
    = calls ["Server=myServerAddress;Database=myDataBase;"; "Yet another one"] initial.
Proof.
  destruct (getInstance_is_idempotent initial
              "Server=myServerAddress;Database=myDataBase;"
              ["Different Connection String"] ["Yet another one"]
              eq_refl eq_refl)
    as (a & w1 & Hfirst & _ & Hconn & _ & _ & _ & Hsame).
  exists a, w1. split; [exact Hfirst|]. split; [exact Hconn|exact Hsame].
Defined.

End SingletonProofs.

(** ** Parking spots *)

Module ParkingProofs.

Import Parking.

Lemma assignVehicle_occupied (v : shared_ptr_Vehicle) (s : ParkingSpot) :
  isAvailable s = false -> assignVehicle v s = (false, s).
Proof. intros H. unfold assignVehicle. now rewrite H. Qed.

Lemma assignVehicle_free (v : shared_ptr_Vehicle) (s : ParkingSpot) :
  isAvailable s = true ->
  assignVehicle v s =
    (true, {| number := number s; type := type s;
              isAvailable := false; currentVehicle := v |}).
Proof. intros H. unfold assignVehicle. now rewrite H. Qed.

Lemma run_op_keeps_implication (s : ParkingSpot) (o : op) :
  available_implies_empty s -> available_implies_empty (run_op s o).
Proof.
  unfold available_implies_empty. intros Hs.
  destruct o as [v|]; simpl; [|reflexivity].
  unfold assignVehicle. destruct (isAvailable s) eqn:Hav; simpl.
  - discriminate.
  - intros H. congruence.
Qed.

Lemma run_keeps_implication (ops : list op) :
  forall s, available_implies_empty s -> available_implies_empty (run ops s).
Proof.
  induction ops as [|o ops IH]; intros s Hs; [exact Hs|].
  apply IH. now apply run_op_keeps_implication.
Qed.

Lemma run_op_keeps_equivalence (s : ParkingSpot) (o : op) :
  match o with assign None => False | _ => True end ->
  available_iff_empty s -> available_iff_empty (run_op s o).
Proof.
  unfold available_iff_empty. intros Ho Hs.
  destruct o as [[v|]|]; simpl; [| contradiction | tauto].
  unfold assignVehicle. destruct (isAvailable s) eqn:Hav; simpl.
  - split; discriminate.
  - rewrite Hav. exact Hs.
Qed.

Lemma run_keeps_equivalence (ops : list op) :
  assigns_vehicles ops ->
  forall s, available_iff_empty s -> available_iff_empty (run ops s).
Proof.
  unfold assigns_vehicles. induction 1 as [|o ops Ho _ IH]; intros s Hs; [exact Hs|].
  apply IH. now apply run_op_keeps_equivalence.
Qed.

(** C9, as stated, fails: assignVehicle with a null vehicle on a new spot
    succeeds and leaves the spot unavailable with no vehicle, so
    [isAvailable] is false although [currentVehicle] is null. *)
Lemma null_vehicle_breaks_the_equivalence :
  assignVehicle None (new_ParkingSpot 101 SpotType.CAR)
    = (true, {| number := 101; type := SpotType.CAR;
                isAvailable := false; currentVehicle := None |}) /\
  available_iff_empty (new_ParkingSpot 101 SpotType.CAR) /\
  ~ available_iff_empty (run [assign None] (new_ParkingSpot 101 SpotType.CAR)).
Proof.
  split; [reflexivity|]. split; [split; reflexivity|].
  unfold available_iff_empty. simpl. intros [_ H]. now specialize (H eq_refl).
Qed.

(** C9, amended: after any sequence of assign and remove calls on a new
    spot, [isAvailable] implies that [currentVehicle] is null, so the spot
    is never both available and holding a vehicle; when no call passes a
    null vehicle, [isAvailable] holds exactly when [currentVehicle] is
    null. assignVehicle on an occupied spot returns false and leaves it
    unchanged, on a free spot it stores the vehicle and clears
    [isAvailable]; removeVehicle clears the vehicle and sets
    [isAvailable]. *)
Theorem spot_never_available_and_occupied
    (num : Z) (ty : SpotType.t) (ops : list op) (v : shared_ptr_Vehicle) :
  let s := run ops (new_ParkingSpot num ty) in
  available_implies_empty s /\
  (isAvailable s && holds_vehicle s = false) /\
  (assigns_vehicles ops -> available_iff_empty s) /\
  (isAvailable s = false -> assignVehicle v s = (false, s)) /\
  (isAvailable s = true ->
     (assignVehicle v s).1 = true /\
     currentVehicle (assignVehicle v s).2 = v /\
     isAvailable (assignVehicle v s).2 = false) /\
  currentVehicle (removeVehicle s) = None /\
  isAvailable (removeVehicle s) = true.
Proof.
  intros s.
  assert (Himp : available_implies_empty s).
  { apply run_keeps_implication. intros _. reflexivity. }
  split; [exact Himp|].
  split.
  { unfold holds_vehicle. destruct (isAvailable s) eqn:Hav; [|reflexivity].
    now rewrite (Himp Hav). }
  split.
  { intros Hops. apply run_keeps_equivalence; [exact Hops|]. split; reflexivity. }
  split; [apply assignVehicle_occupied|].
  split; [|split; reflexivity].
  intros Hav. now rewrite (assignVehicle_free v s Hav).
Qed.

Lemma spot_never_available_and_occupied_witness :
  available_iff_empty
    (run [assign (createVehicle VehicleType.CAR "DL-001"); remove;
          assign (createVehicle VehicleType.BIKE "DL-002")]
         (new_ParkingSpot 101 SpotType.CAR)).
Proof.
  pose proof (spot_never_available_and_occupied 101 SpotType.CAR
                [assign (createVehicle VehicleType.CAR "DL-001"); remove;
                 assign (createVehicle VehicleType.BIKE "DL-002")] None) as H.
  cbv zeta in H. destruct H as (_ & _ & H & _).
  apply H. unfold assigns_vehicles. repeat constructor.
Defined.

End ParkingProofs.

(** ** Equal split *)

Module SplitWiseProofs.

Import SplitWise.

Lemma to_int_in_range (z : Z) : 0 <= z <= INT_MAX -> to_int z = z.
Proof.
  unfold to_int, INT_MAX. intros Hz.
  rewrite Z.mod_small by lia. lia.
Qed.

Lemma vector_fill_nonneg (n : nat) (share : float) :
  vector_fill (Z.of_nat n) share = Returns (repeat share n).
Proof.
  unfold vector_fill.
  destruct (Z.ltb_spec (Z.of_nat n) 0) as [Hneg|_]; [lia|].
  now rewrite Nat2Z.id.
Qed.

Lemma calculate_in_range (amount : float) (users : list shared_ptr_User) (values : list float) :
  users <> [] -> Z.of_nat (length users) <= INT_MAX ->
  calculateExpensePerUser amount users values
  = Returns (repeat (fdiv amount (of_int (Z.of_nat (length users)))) (length users)).
Proof.
  intros Hne Hfit. unfold calculateExpensePerUser.
  rewrite to_int_in_range by lia.
  assert (Hpos : Z.of_nat (length users) <> 0) by (destruct users; [congruence|simpl; lia]).
  unfold div. apply Z.eqb_neq in Hpos. rewrite Hpos. simpl.
  apply vector_fill_nonneg.
Qed.

Lemma calculate_at_size (amount : float) (users : list shared_ptr_User)
    (values : list float) (size : Z) :
  Z.of_nat (length users) = size ->
  calculateExpensePerUser amount users values
  = and_then (div amount (to_int size)) (fun share => vector_fill (to_int size) share).
Proof. intros <-. reflexivity. Qed.

(** The expense of [main]: 300 split among the three users. *)
Example split_of_main :
  splitAmount {| expense_id := 1001; amount := of_int 300; paidBy := Some alice;
                 participants := [Some alice; Some bob; Some charlie];
                 strategy := Some EqualSplitStrategy |}
  = Returns {[ 1 := of_int 100; 2 := of_int 100; 3 := of_int 100 ]}.
Proof. vm_compute. reflexivity. Qed.

(** C10, as stated, fails for participant lists whose size does not fit
    int. With 2^31 participants [n] is negative and the vector constructor
    throws; with 2^32 participants [n] is 0 and the division by zero is
    reached although the list is not empty. *)
Lemma oversized_participant_list_is_not_split :
  repeat (Some alice) (Pos.to_nat 2147483648) <> [] /\
  calculateExpensePerUser (of_int 300) (repeat (Some alice) (Pos.to_nat 2147483648)) []
    = Throws length_error /\
  repeat (Some alice) (Pos.to_nat 4294967296) <> [] /\
  calculateExpensePerUser (of_int 300) (repeat (Some alice) (Pos.to_nat 4294967296)) []
    = Undefined /\
  ~ (forall (amount : float) (users : list shared_ptr_User) (values : list float),
        users <> [] ->
        calculateExpensePerUser amount users values
        = Returns (repeat (fdiv amount (of_int (Z.of_nat (length users)))) (length users))).
Proof.
  assert (Hnonempty : forall p, repeat (Some alice) (Pos.to_nat p) <> []).
  { intros p. destruct (Pos2Nat.is_succ p) as [k Hk]. rewrite Hk. discriminate. }
  assert (Hsize : forall p, Z.of_nat (length (repeat (Some alice) (Pos.to_nat p))) = Z.pos p).
  { intros p. rewrite repeat_length. apply positive_nat_Z. }
  assert (Hthrows :
    calculateExpensePerUser (of_int 300) (repeat (Some alice) (Pos.to_nat 2147483648)) []
    = Throws length_error).
  { rewrite (calculate_at_size _ _ _ _ (Hsize 2147483648%positive)).
    vm_compute. reflexivity. }
  split; [apply Hnonempty|]. split; [exact Hthrows|].
  split; [apply Hnonempty|]. split.
  - rewrite (calculate_at_size _ _ _ _ (Hsize 4294967296%positive)).
    vm_compute. reflexivity.
  - intros H. specialize (H (of_int 300) _ [] (Hnonempty 2147483648%positive)).
    rewrite Hthrows in H. discriminate H.
Qed.

(** C10, amended: for a participant list that is not empty and whose size
    fits int, calculateExpensePerUser returns as many shares as there are
    participants, each equal to amount / n, and the division by zero is not
    reached. For an empty list the division by zero is reached, so the
    behaviour is undefined, also through Expense::splitAmount, which does
    not reject an empty participant list. *)
Theorem equal_split_gives_n_equal_shares
    (amount : float) (users : list shared_ptr_User) (values : list float)
    (eid : Z) (payer : shared_ptr_User)
    (Hne : users <> []) (Hfit : Z.of_nat (length users) <= INT_MAX) :
  calculateExpensePerUser amount users values
    = Returns (repeat (fdiv amount (of_int (Z.of_nat (length users)))) (length users)) /\
  length (repeat (fdiv amount (of_int (Z.of_nat (length users)))) (length users))
    = length users /\
  Forall (eq (fdiv amount (of_int (Z.of_nat (length users)))))
         (repeat (fdiv amount (of_int (Z.of_nat (length users)))) (length users)) /\
  div amount (to_int (Z.of_nat (length users)))
    = Returns (fdiv amount (of_int (Z.of_nat (length users)))) /\
  calculateExpensePerUser amount [] values = Undefined /\
  splitAmount {| expense_id := eid; amount := amount; paidBy := payer;
                 participants := []; strategy := Some EqualSplitStrategy |} = Undefined.
Proof.
  split; [now apply calculate_in_range|].
  split; [apply repeat_length|].
  split.
  { apply List.Forall_forall. intros x Hx. symmetry. exact (repeat_spec _ _ _ Hx). }
  split; [|split; reflexivity].
  rewrite to_int_in_range by lia. unfold div.
  assert (Hpos : Z.of_nat (length users) <> 0) by (destruct users; [congruence|simpl; lia]).
  apply Z.eqb_neq in Hpos. now rewrite Hpos.
Qed.

Lemma equal_split_gives_n_equal_shares_witness :
  calculateExpensePerUser (of_int 300) [Some alice; Some bob; Some charlie] []
  = Returns [of_int 100; of_int 100; of_int 100].
Proof.
  refine (eq_trans (proj1 (equal_split_gives_n_equal_shares (of_int 300)
                             [Some alice; Some bob; Some charlie] [] 1001 (Some alice) _ _)) _).
  - discriminate.
  - vm_compute. discriminate.
  - vm_compute. reflexivity.
Defined.

End SplitWiseProofs.

(** ** The registry over its lifetime *)

(** Closes a decidable closed goal by evaluating its decision procedure. *)
Ltac by_decision := refine (bool_decide_unpack _ _); vm_compute; exact I.

Module RegistryProofs.

Import Prototype.

Lemma clone_reads_heap_only (p : ptr) (h : gmap addr Character) (r1 r2 : gmap string ptr) :
  (clone p (World h r1)).1 = (clone p (World h r2)).1 /\
  heap (clone p (World h r1)).2 = heap (clone p (World h r2)).2 /\
  prototypes (clone p (World h r1)).2 = r1.
Proof.
  unfold clone, bind, deref. destruct p as [a|]; cbn [heap]; [|now repeat split].
  destruct (h !! a) as [[n|n|n]|]; now repeat split.
Qed.

Lemma registered_elem (w : world) (p : ptr) :
  p ∈ registered w <-> exists t, prototypes w !! t = Some p.
Proof.
  unfold registered. rewrite list_elem_of_fmap. split.
  - intros ([t p'] & -> & Hin). exists t. now apply elem_of_map_to_list in Hin.
  - intros (t & Ht). exists (t, p). split; [reflexivity|]. now apply elem_of_map_to_list.
Qed.

Lemma delete_each_never_throws (ps : list ptr) :
  forall (w : world) (e : exception), (delete_each ps w).1 <> Throws e.
Proof.
  induction ps as [|p ps IH]; intros w e; [discriminate|].
  cbn [delete_each]. unfold bind, delete_.
  destruct p as [a|]; [destruct (heap w !! a)|]; cbn; try discriminate; apply IH.
Qed.

(** A pointer to no object anywhere in the rest of the loop makes the loop
    undefined. *)
Lemma delete_each_dangling (a : addr) (ps : list ptr) :
  forall w : world, Some a ∈ ps -> heap w !! a = None -> (delete_each ps w).1 = Undefined.
Proof.
  induction ps as [|p ps IH]; intros w Hin Hgone; [now apply elem_of_nil in Hin|].
  cbn [delete_each]. unfold bind, delete_.
  destruct p as [b|].
  - destruct (decide (b = a)) as [->|Hne].
    + now rewrite Hgone.
    + destruct (heap w !! b) eqn:Hb; [|reflexivity].
      apply IH.
      * apply elem_of_cons in Hin as [Heq|Hin]; [congruence|exact Hin].
      * cbn [heap]. rewrite lookup_delete_ne by exact Hne. exact Hgone.
  - apply IH; [|exact Hgone].
    apply elem_of_cons in Hin as [Heq|Hin]; [discriminate|exact Hin].
Qed.

Lemma delete_each_returns_distinct (ps : list ptr) :
  forall w w' : world, delete_each ps w = (Returns tt, w') -> NoDup (omap id ps).
Proof.
  induction ps as [|p ps IH]; intros w w' Hrun; [constructor|].
  cbn [delete_each] in Hrun. unfold bind, delete_ in Hrun.
  destruct p as [a|]; cbn [omap id]; [|now apply (IH w w')].
  destruct (heap w !! a) eqn:Ha; [|discriminate].
  apply NoDup_cons. split; [|exact (IH _ w' Hrun)].
  intros Hin. apply list_elem_of_omap in Hin as (p & Hp & Hid). cbn in Hid. subst p.
  pose proof (delete_each_dangling a ps (World (delete a (heap w)) (prototypes w)) Hp
                (lookup_delete_eq _ _)) as Hundef.
  rewrite Hrun in Hundef. discriminate.
Qed.

(** Distinct live pointers are all deleted, and nothing else is touched. *)
Lemma delete_each_distinct_live (ps : list ptr) :
  forall w : world,
    NoDup ps ->
    (forall p, p ∈ ps -> exists a, p = Some a /\ is_Some (heap w !! a)) ->
    exists h',
      delete_each ps w = (Returns tt, World h' (prototypes w)) /\
      (forall b, Some b ∈ ps -> h' !! b = None) /\
      (forall b, Some b ∉ ps -> h' !! b = heap w !! b).
Proof.
  induction ps as [|p ps IH]; intros w Hnd Hlive.
  - exists (heap w). split; [now destruct w|]. split; [|reflexivity].
    intros b Hb. now apply elem_of_nil in Hb.
  - apply NoDup_cons in Hnd as [Hp Hnd].
    destruct (Hlive p) as (a & -> & [c Hc]); [left|].
    destruct (IH (World (delete a (heap w)) (prototypes w)) Hnd) as (h' & Hrun & Hdel & Hkeep).
    { intros p Hin. destruct (Hlive p) as (b & -> & Hb); [now right|].
      exists b. split; [reflexivity|]. cbn [heap].
      rewrite lookup_delete_ne; [exact Hb|]. intros ->. contradiction. }
    exists h'. cbn [delete_each]. unfold bind, delete_. rewrite Hc.
    split; [exact Hrun|]. split.
    + intros b Hb. apply elem_of_cons in Hb as [Heq|Hb]; [|now apply Hdel].
      injection Heq as ->. rewrite Hkeep by exact Hp. apply lookup_delete_eq.
    + intros b Hb. apply not_elem_of_cons in Hb as [Hne Hb].
      rewrite Hkeep by exact Hb. cbn [heap]. apply lookup_delete_ne. congruence.
Qed.

Lemma registered_distinct (w : world) :
  (forall t p, prototypes w !! t = Some p -> exists a, p = Some a) ->
  (forall t1 t2 a, prototypes w !! t1 = Some (Some a) ->
                   prototypes w !! t2 = Some (Some a) -> t1 = t2) ->
  NoDup (registered w).
Proof.
  intros Hnonnull Hinj. unfold registered.
  apply NoDup_fmap_2_strong; [|apply NoDup_map_to_list].
  intros [t1 p1] [t2 p2] H1 H2 Heq. cbn in Heq. subst p2.
  apply elem_of_map_to_list in H1, H2.
  destruct (Hnonnull t1 p1 H1) as (a & ->).
  now rewrite (Hinj t1 t2 a H1 H2).
Qed.

Lemma shared_value_not_distinct {A B} (f : A -> option B) (l : list A) (x y : A) (b : B) :
  x ∈ l -> y ∈ l -> x <> y -> f x = Some b -> f y = Some b -> ~ NoDup (omap f l).
Proof.
  induction l as [|z l IH]; intros Hx Hy Hne Hfx Hfy Hnd; [now apply elem_of_nil in Hx|].
  apply elem_of_cons in Hx, Hy.
  assert (Htail : NoDup (omap f l)).
  { simpl in Hnd. destruct (f z); [now apply NoDup_cons in Hnd as [_ ?]|exact Hnd]. }
  assert (Hhead : forall u v, u = z -> v ∈ l -> f u = Some b -> f v = Some b -> False).
  { intros u v -> Hv Hfu Hfv. simpl in Hnd. rewrite Hfu in Hnd.
    apply NoDup_cons in Hnd as [Hnotin _]. apply Hnotin.
    apply list_elem_of_omap. eauto. }
  destruct Hx as [Hxz|Hx], Hy as [Hyz|Hy].
  - congruence.
  - exact (Hhead x y Hxz Hy Hfx Hfy).
  - exact (Hhead y x Hyz Hx Hfy Hfx).
  - exact (IH Hx Hy Hne Hfx Hfy Htail).
Qed.

Lemma omap_id_fmap_snd {A B} (l : list (A * option B)) : omap id (l.*2) = omap snd l.
Proof. induction l as [|[x [b|]] l IH]; [reflexivity| |]; csimpl; now rewrite IH. Qed.

Lemma live_inv (w : world) (p : ptr) :
  live w p -> exists a, p = Some a /\ is_Some (heap w !! a).
Proof. unfold live. destruct p as [a|]; [eauto|]. cbn. intros [? ?]. discriminate. Qed.

Lemma destroy_distinct_live (w : world) (ps : list ptr) :
  Forall (live w) (registered w) -> NoDup (registered w) -> ps ≡ₚ registered w ->
  exists h',
    destroy_registry ps w = (Returns tt, World h' ∅) /\
    (forall b, Some b ∈ registered w -> h' !! b = None) /\
    (forall b, Some b ∉ registered w -> h' !! b = heap w !! b).
Proof.
  intros Hlive Hnd Horder.
  destruct (delete_each_distinct_live ps w) as (h' & Hrun & Hdel & Hkeep).
  - now rewrite Horder.
  - intros p Hp. rewrite Horder in Hp. apply live_inv.
    rewrite Forall_forall in Hlive. now apply Hlive.
  - exists h'. unfold destroy_registry, bind. rewrite Hrun.
    split; [reflexivity|]. split.
    + intros b Hb. apply Hdel. now rewrite Horder.
    + intros b Hb. apply Hkeep. now rewrite Horder.
Qed.



(** X2: a registration under one tag does not change what a lookup of any
    other tag does: the same pointer or the same error, and the same
    objects on the heap afterwards. *)
Theorem registration_leaves_other_tags
    (w : world) (type type' : string) (p : ptr) (Hne : type <> type') :
  ((addPrototype type p ;;; getPrototype type')%cpp w).1 = (getPrototype type' w).1 /\
  heap ((addPrototype type p ;;; getPrototype type')%cpp w).2 = heap (getPrototype type' w).2.
Proof.
  destruct w as [h r].
  unfold bind, addPrototype, modify, getPrototype, bind, prototypes_at. cbn [heap prototypes].
  rewrite lookup_insert_ne by exact Hne.
  destruct (r !! type') as [p'|]; [|now split].
  destruct (clone_reads_heap_only p' h (<[type := p]> r) r) as (Ho & Hh & _).
  now split.
Qed.

Lemma registration_leaves_other_tags_witness :
  ((addPrototype "mage" None ;;; getPrototype "warrior")%cpp
     (World {[ 1%positive := Warrior "Conan" ]} {[ "warrior" := Some 1%positive ]})).1
  = (getPrototype "warrior"
       (World {[ 1%positive := Warrior "Conan" ]} {[ "warrior" := Some 1%positive ]})).1.
Proof.
  apply (registration_leaves_other_tags
           (World {[ 1%positive := Warrior "Conan" ]} {[ "warrior" := Some 1%positive ]})
           "mage" "warrior" None).
  discriminate.
Defined.

(** X3: addPrototype does not check its pointer. After registering a null
    pointer or a pointer to no object under a tag, the lookup of that tag
    has undefined behaviour; nothing is cloned. *)
Theorem registering_no_object_makes_lookup_undefined
    (w : world) (type : string) (p : ptr) (Hbad : ~ live w p) :
  (addPrototype type p ;;; getPrototype type)%cpp w
    = (Undefined, World (heap w) (<[type := p]> (prototypes w))).
Proof.
  unfold bind, addPrototype, modify, getPrototype, bind, prototypes_at. cbn [heap prototypes].
  rewrite lookup_insert_eq. unfold clone, bind, deref. cbn [heap].
  destruct p as [a|]; [|reflexivity].
  destruct (heap w !! a) as [c|] eqn:Ha; [|reflexivity].
  exfalso. apply Hbad. unfold live. cbn. rewrite Ha. eauto.
Qed.

Lemma registering_no_object_makes_lookup_undefined_witness :
  (addPrototype "ghost" None ;;; getPrototype "ghost")%cpp (World ∅ ∅)
    = (Undefined, World ∅ {[ "ghost" := None ]}).
Proof.
  apply (registering_no_object_makes_lookup_undefined (World ∅ ∅) "ghost" None).
  vm_compute. intros [? ?]. discriminate.
Defined.

(** X4: when every registered pointer points to an object and no object is
    registered under two tags, the destructor returns, in whatever order
    the map is iterated: it has deleted exactly the registered exemplars,
    and every other object, clones included, is as before. *)
Theorem destructor_deletes_exactly_the_exemplars (w : world) (ps : list ptr)
    (Hlive : Forall (live w) (registered w)) (Hdistinct : NoDup (registered w))
    (Horder : ps ≡ₚ registered w) :
  exists w' : world,
    destroy_registry ps w = (Returns tt, w') /\
    prototypes w' = ∅ /\
    (forall t b, prototypes w !! t = Some (Some b) -> heap w' !! b = None) /\
    (forall b, (forall t, prototypes w !! t <> Some (Some b)) -> heap w' !! b = heap w !! b).
Proof.
  destruct (destroy_distinct_live w ps Hlive Hdistinct Horder) as (h' & Hrun & Hdel & Hkeep).
  exists (World h' ∅). split; [exact Hrun|]. split; [reflexivity|]. split.
  - intros t b Ht. apply Hdel. apply registered_elem. eauto.
  - intros b Hb. apply Hkeep. intros Hin. apply registered_elem in Hin as (t & Ht).
    exact (Hb t Ht).
Qed.

Lemma destructor_deletes_exactly_the_exemplars_witness :
  exists w' : world,
    destroy_registry
      (registered (World {[ 1%positive := Warrior "Conan"; 2%positive := Mage "Gandalf";
                            3%positive := Warrior "Conan" ]}
                         {[ "warrior" := Some 1%positive; "mage" := Some 2%positive ]}))
      (World {[ 1%positive := Warrior "Conan"; 2%positive := Mage "Gandalf";
                3%positive := Warrior "Conan" ]}
             {[ "warrior" := Some 1%positive; "mage" := Some 2%positive ]})
    = (Returns tt, w') /\
    heap w' !! 3%positive = Some (Warrior "Conan").
Proof.
  destruct (destructor_deletes_exactly_the_exemplars
              (World {[ 1%positive := Warrior "Conan"; 2%positive := Mage "Gandalf";
                        3%positive := Warrior "Conan" ]}
                     {[ "warrior" := Some 1%positive; "mage" := Some 2%positive ]})
              (registered (World {[ 1%positive := Warrior "Conan"; 2%positive := Mage "Gandalf";
                                    3%positive := Warrior "Conan" ]}
                                 {[ "warrior" := Some 1%positive; "mage" := Some 2%positive ]})))
    as (w' & Hrun & _ & _ & Hkeep).
  - by_decision.
  - by_decision.
  - reflexivity.
  - exists w'. split; [exact Hrun|]. rewrite Hkeep; [vm_compute; reflexivity|].
    intros t Ht. cbn [prototypes] in Ht.
    destruct (decide (t = "warrior")) as [->|Hw]; [vm_compute in Ht; discriminate|].
    destruct (decide (t = "mage")) as [->|Hm]; [vm_compute in Ht; discriminate|].
    rewrite lookup_insert_ne, lookup_singleton_ne in Ht by congruence. discriminate Ht.
Defined.

(** X5: when one object is registered under two tags, the destructor
    deletes it twice: its behaviour is undefined in whatever order the map
    is iterated. *)
Theorem exemplar_under_two_tags_is_deleted_twice
    (w : world) (t1 t2 : string) (a : addr) (ps : list ptr)
    (Hne : t1 <> t2)
    (H1 : prototypes w !! t1 = Some (Some a)) (H2 : prototypes w !! t2 = Some (Some a))
    (Horder : ps ≡ₚ registered w) :
  (destroy_registry ps w).1 = Undefined.
Proof.
  unfold destroy_registry, bind.
  destruct (delete_each ps w) as [[[]|e|] w'] eqn:Hrun; [|exfalso|reflexivity].
  - exfalso. apply delete_each_returns_distinct in Hrun.
    rewrite Horder in Hrun. unfold registered in Hrun. rewrite omap_id_fmap_snd in Hrun.
    refine (shared_value_not_distinct snd (map_to_list (prototypes w))
              (t1, Some a) (t2, Some a) a _ _ _ eq_refl eq_refl Hrun).
    + now apply elem_of_map_to_list.
    + now apply elem_of_map_to_list.
    + congruence.
  - apply (delete_each_never_throws ps w e). now rewrite Hrun.
Qed.

Lemma exemplar_under_two_tags_is_deleted_twice_witness :
  (destroy_registry
     (registered (World {[ 1%positive := Warrior "Conan" ]}
                        {[ "warrior" := Some 1%positive; "knight" := Some 1%positive ]}))
     (World {[ 1%positive := Warrior "Conan" ]}
            {[ "warrior" := Some 1%positive; "knight" := Some 1%positive ]})).1
  = Undefined.
Proof.
  apply (exemplar_under_two_tags_is_deleted_twice _ "warrior" "knight" 1%positive).
  - discriminate.
  - vm_compute. reflexivity.
  - vm_compute. reflexivity.
  - reflexivity.
Defined.

(** X6: clones outlive the registry. A clone taken from a registry whose
    exemplars are distinct live objects is still on the heap, with the
    exemplar's value, after the destructor has deleted the exemplar. *)
Theorem clone_outlives_the_registry
    (w : world) (type : string) (a : addr) (ps : list ptr)
    (Hreg : prototypes w !! type = Some (Some a))
    (Hlive : Forall (live w) (registered w)) (Hdistinct : NoDup (registered w))
    (Horder : ps ≡ₚ registered w) :
  exists (q : addr) (exemplar : Character) (w1 w2 : world),
    heap w !! a = Some exemplar /\
    getPrototype type w = (Returns (Some q), w1) /\
    destroy_registry ps w1 = (Returns tt, w2) /\
    heap w2 !! q = Some exemplar /\
    heap w2 !! a = None.
Proof.
  assert (Hin : Some a ∈ registered w) by (apply registered_elem; eauto).
  rewrite Forall_forall in Hlive.
  destruct (live_inv w _ (Hlive _ Hin)) as (a' & Heq & [exemplar Ha]).
  injection Heq as <-.
  pose proof (PrototypeProofs.getPrototype_registered w type a exemplar Hreg Ha) as Hget.
  set (q := (alloc (heap w) exemplar).1) in *.
  set (w1 := World (alloc (heap w) exemplar).2 (prototypes w)) in *.
  assert (Hfresh : q ∉ dom (heap w)) by apply alloc_fresh.
  assert (Hlive1 : Forall (live w1) (registered w1)).
  { apply Forall_forall. intros p Hp. change (registered w1) with (registered w) in Hp.
    destruct (live_inv w p (Hlive p Hp)) as (b & -> & Hb).
    unfold live. cbn [mbind option_bind]. subst w1. cbn [heap].
    rewrite alloc_lookup_old; [exact Hb|]. now apply elem_of_dom. }
  destruct (destroy_distinct_live w1 ps Hlive1 Hdistinct Horder) as (h' & Hrun & Hdel & Hkeep).
  exists q, exemplar, w1, (World h' ∅).
  split; [exact Ha|]. split; [exact Hget|]. split; [exact Hrun|]. cbn [heap]. split.
  - rewrite Hkeep; [apply alloc_lookup_new|].
    intros Hq. change (registered w1) with (registered w) in Hq.
    destruct (live_inv w _ (Hlive _ Hq)) as (b & Heq & Hb). injection Heq as <-.
    apply Hfresh. now apply elem_of_dom.
  - now apply Hdel.
Qed.

Lemma clone_outlives_the_registry_witness :
  exists (q : addr) (exemplar : Character) (w1 w2 : world),
    getPrototype "warrior"
      (World {[ 1%positive := Warrior "Conan" ]} {[ "warrior" := Some 1%positive ]})
      = (Returns (Some q), w1) /\
    destroy_registry [Some 1%positive] w1 = (Returns tt, w2) /\
    heap w2 !! q = Some exemplar.
Proof.
  destruct (clone_outlives_the_registry
              (World {[ 1%positive := Warrior "Conan" ]} {[ "warrior" := Some 1%positive ]})
              "warrior" 1%positive [Some 1%positive])
    as (q & exemplar & w1 & w2 & _ & Hget & Hrun & Hq & _).
  - vm_compute. reflexivity.
  - by_decision.
  - by_decision.
  - reflexivity.
  - exists q, exemplar, w1, w2. split; [exact Hget|]. split; [exact Hrun|exact Hq].
Defined.

End RegistryProofs.

(** ** Meals over the life of a builder *)

Module MealProofs.

Import Builder.

Lemma run_steps_frame (b : MealBuilder) (a : addr) (m : Meal) (ss : list step) (h : heap) :
  meal_of b = Some a -> h !! a = Some m ->
  exists h',
    run_steps b ss h = (Returns tt, h') /\
    h' !! a = Some {| dishes := dishes m ++ map (dish_of b) ss |} /\
    forall a', a' <> a -> h' !! a' = h !! a'.
Proof.
  intros Hb Hm. eexists. split; [exact (BuilderProofs.run_steps_live b a ss Hb h m Hm)|].
  split; [apply lookup_insert_eq|].
  intros a' Hne. now apply lookup_insert_ne.
Qed.

Lemma constructMeal_live (b : MealBuilder) (a : addr) (m : Meal) (h : heap) :
  meal_of b = Some a -> h !! a = Some m ->
  exists h',
    constructMeal b h = (Returns (Some a), h') /\
    h' !! a = Some {| dishes := dishes m ++ [dish_of b MainDish; dish_of b SideDish; dish_of b Drink] |} /\
    forall a', a' <> a -> h' !! a' = h !! a'.
Proof.
  intros Hb Hm.
  destruct (run_steps_frame b a m [MainDish; SideDish; Drink] h Hb Hm) as (h' & Hrun & Ha & Hframe).
  exists h'. rewrite BuilderProofs.constructMeal_as_steps. unfold bind.
  rewrite Hrun, BuilderProofs.getMeal_total, Hb. now repeat split.
Qed.

(** X7: the director adds to whatever the builder's Meal already holds, and
    getMeal does not start a new Meal: run twice on one builder, it returns
    the same pointer both times and the Meal ends with the three dishes
    twice. *)
Theorem director_twice_accumulates
    (b : MealBuilder) (a : addr) (m : Meal) (h : heap)
    (Hb : meal_of b = Some a) (Hm : h !! a = Some m) :
  exists h1 h2 : heap,
    constructMeal b h = (Returns (Some a), h1) /\
    dishes_at h1 (Some a)
      = Some (dishes m ++ [dish_of b MainDish; dish_of b SideDish; dish_of b Drink])%list /\
    constructMeal b h1 = (Returns (Some a), h2) /\
    dishes_at h2 (Some a)
      = Some (dishes m ++ [dish_of b MainDish; dish_of b SideDish; dish_of b Drink]
                       ++ [dish_of b MainDish; dish_of b SideDish; dish_of b Drink])%list.
Proof.
  destruct (constructMeal_live b a m h Hb Hm) as (h1 & Hrun1 & Ha1 & _).
  destruct (constructMeal_live b a _ h1 Hb Ha1) as (h2 & Hrun2 & Ha2 & _).
  exists h1, h2. unfold dishes_at. cbn [mbind option_bind].
  rewrite Ha1, Ha2. cbn [dishes fmap option_fmap option_map].
  rewrite <- app_assoc. now repeat split.
Qed.

Lemma director_twice_accumulates_witness :
  exists h1 h2 : heap,
    constructMeal (VegetarianMealBuilder (Some 1%positive)) {[ 1%positive := {| dishes := [] |} ]}
      = (Returns (Some 1%positive), h1) /\
    constructMeal (VegetarianMealBuilder (Some 1%positive)) h1 = (Returns (Some 1%positive), h2) /\
    dishes_at h2 (Some 1%positive)
      = Some ["Vegetarian Burger"; "Salad"; "Lemonade"; "Vegetarian Burger"; "Salad"; "Lemonade"].
Proof.
  destruct (director_twice_accumulates (VegetarianMealBuilder (Some 1%positive)) 1%positive
              {| dishes := [] |} {[ 1%positive := {| dishes := [] |} ]} eq_refl)
    as (h1 & h2 & Hrun1 & _ & Hrun2 & Hd).
  - vm_compute. reflexivity.
  - exists h1, h2. split; [exact Hrun1|]. split; [exact Hrun2|exact Hd].
Defined.

(** X8: builders do not share a Meal. A builder constructed while another
    builder's Meal is live gets a Meal of its own; building with it leaves
    the other Meal, and every other object, unchanged. *)
Theorem builders_do_not_share_a_meal
    (vegetarian : bool) (h : heap) (a1 : addr) (m1 : Meal) (Hm1 : h !! a1 = Some m1) :
  exists (b2 : MealBuilder) (a2 : addr) (h0 h' : heap),
    (if vegetarian then new_VegetarianMealBuilder else new_NonVegetarianMealBuilder) h
      = (Returns b2, h0) /\
    meal_of b2 = Some a2 /\ a2 <> a1 /\
    constructMeal b2 h0 = (Returns (Some a2), h') /\
    dishes_at h' (Some a2) = Some [dish_of b2 MainDish; dish_of b2 SideDish; dish_of b2 Drink] /\
    h' !! a1 = Some m1 /\
    forall a, a ∈ dom h -> h' !! a = h !! a.
Proof.
  set (a2 := (alloc h {| dishes := [] |}).1).
  set (h0 := (alloc h {| dishes := [] |}).2).
  set (b2 := if vegetarian then VegetarianMealBuilder (Some a2)
             else NonVegetarianMealBuilder (Some a2)).
  assert (Hb2 : meal_of b2 = Some a2) by (subst b2; now destruct vegetarian).
  assert (Hm2 : h0 !! a2 = Some {| dishes := [] |}) by apply alloc_lookup_new.
  assert (Hfresh : forall a, a ∈ dom h -> a <> a2).
  { intros a Ha Heq. subst a. exact (alloc_fresh h {| dishes := [] |} Ha). }
  assert (Hold : forall a, a ∈ dom h -> h0 !! a = h !! a).
  { intros a Ha. now apply alloc_lookup_old. }
  assert (Ha1 : a1 ∈ dom h) by (apply elem_of_dom; eauto).
  destruct (constructMeal_live b2 a2 _ h0 Hb2 Hm2) as (h' & Hrun & Hd & Hframe).
  exists b2, a2, h0, h'.
  split; [subst b2; now destruct vegetarian|].
  split; [exact Hb2|]. split; [intros Heq; exact (Hfresh a1 Ha1 (eq_sym Heq))|].
  split; [exact Hrun|].
  split; [unfold dishes_at; cbn [mbind option_bind]; now rewrite Hd|].
  split.
  - rewrite Hframe by now apply Hfresh. rewrite Hold by exact Ha1. exact Hm1.
  - intros a Ha. rewrite Hframe by now apply Hfresh. now apply Hold.
Qed.

Lemma builders_do_not_share_a_meal_witness :
  exists (b2 : MealBuilder) (a2 : addr) (h0 h' : heap),
    new_NonVegetarianMealBuilder
      {[ 1%positive := {| dishes := ["Vegetarian Burger"; "Salad"; "Lemonade"] |} ]}
      = (Returns b2, h0) /\
    constructMeal b2 h0 = (Returns (Some a2), h') /\
    dishes_at h' (Some a2) = Some ["Chicken Burger"; "Fries"; "Coke"] /\
    h' !! 1%positive = Some {| dishes := ["Vegetarian Burger"; "Salad"; "Lemonade"] |}.
Proof.
  destruct (builders_do_not_share_a_meal false
              {[ 1%positive := {| dishes := ["Vegetarian Burger"; "Salad"; "Lemonade"] |} ]}
              1%positive {| dishes := ["Vegetarian Burger"; "Salad"; "Lemonade"] |})
    as (b2 & a2 & h0 & h' & Hnew & Hb2 & _ & Hrun & Hd & Hkeep & _).
  - vm_compute. reflexivity.
  - exists b2, a2, h0, h'. split; [exact Hnew|]. split; [exact Hrun|].
    split; [|exact Hkeep].
    injection Hnew as <- _. exact Hd.
Defined.

(** X9: the builder keeps its pointer when the Meal is deleted, as main does
    with the Meal the director returned. getMeal then still returns that
    pointer, now to no object; every step, the director and a second delete
    have undefined behaviour. *)
Theorem builder_after_delete_is_unusable
    (b : MealBuilder) (a : addr) (m : Meal) (s : step) (h : heap)
    (Hb : meal_of b = Some a) (Hm : h !! a = Some m) :
  delete_Meal (Some a) h = (Returns tt, delete a h) /\
  getMeal b (delete a h) = (Returns (Some a), delete a h) /\
  dishes_at (delete a h) (Some a) = None /\
  run_step b s (delete a h) = (Undefined, delete a h) /\
  constructMeal b (delete a h) = (Undefined, delete a h) /\
  delete_Meal (Some a) (delete a h) = (Undefined, delete a h).
Proof.
  assert (Hgone : delete a h !! a = None) by apply lookup_delete_eq.
  assert (Hstep : forall s', run_step b s' (delete a h) = (Undefined, delete a h)).
  { intros s'. destruct b as [p|p]; cbn in Hb; subst p; destruct s'; cbn;
      unfold addDish; now rewrite Hgone. }
  split; [unfold delete_Meal; now rewrite Hm|].
  split; [now rewrite BuilderProofs.getMeal_total, Hb|].
  split; [unfold dishes_at; cbn [mbind option_bind]; now rewrite Hgone|].
  split; [apply Hstep|].
  split; [|unfold delete_Meal; now rewrite Hgone].
  pose proof (Hstep MainDish) as Hmain. cbn [run_step] in Hmain.
  unfold constructMeal, bind. now rewrite Hmain.
Qed.

Lemma builder_after_delete_is_unusable_witness :
  constructMeal (VegetarianMealBuilder (Some 1%positive))
    (delete 1%positive {[ 1%positive := {| dishes := ["Vegetarian Burger"] |} ]})
  = (Undefined, delete 1%positive {[ 1%positive := {| dishes := ["Vegetarian Burger"] |} ]}).
Proof.
  refine (proj1 (proj2 (proj2 (proj2 (proj2
            (builder_after_delete_is_unusable (VegetarianMealBuilder (Some 1%positive))
               1%positive {| dishes := ["Vegetarian Burger"] |} MainDish
               {[ 1%positive := {| dishes := ["Vegetarian Burger"] |} ]} eq_refl _)))))).
  vm_compute. reflexivity.
Defined.

End MealProofs.

(** ** The connection over the life of the program *)

Module ConnectionProofs.

Import Singleton.

(** X10: however many getInstance calls are made from a state without
    instance, one connection object is created, at a new address, and the
    line reporting the connection is written once, with the first string;
    the objects already on the heap are unchanged. *)
Theorem connection_is_established_once
    (w : world) (first : string) (rest : list string) (Hnull : instance w = nullptr) :
  exists (a : addr) (w' : world),
    calls (first :: rest) w = (Returns (repeat (Some a) (S (length rest))), w') /\
    cout w' = cout w ++ "Database connection established: " ++ first ++ endl /\
    (a ∉ dom (heap w)) /\
    dom (heap w') = {[ a ]} ∪ dom (heap w) /\
    forall b, b ∈ dom (heap w) -> heap w' !! b = heap w !! b.
Proof.
  exists (alloc (heap w) {| connectionString := first |}).1, (connected w first).
  split.
  { cbn [calls]. unfold bind. rewrite (SingletonProofs.getInstance_first w first Hnull).
    now rewrite (SingletonProofs.calls_again (connected w first) _ rest eq_refl). }
  split; [reflexivity|]. split; [apply alloc_fresh|].
  split; [apply alloc_dom|].
  intros b Hb. now apply alloc_lookup_old.
Qed.

Lemma connection_is_established_once_witness :
  exists (a : addr) (w' : world),
    calls ["Server=myServerAddress;Database=myDataBase;"; "Different Connection String"] initial
      = (Returns [Some a; Some a], w') /\
    cout w' = "Database connection established: Server=myServerAddress;Database=myDataBase;"
              ++ endl.
Proof.
  destruct (connection_is_established_once initial
              "Server=myServerAddress;Database=myDataBase;"
              ["Different Connection String"] eq_refl)
    as (a & w' & Hcalls & Hout & _).
  exists a, w'. split; [exact Hcalls|exact Hout].
Defined.

Lemma through_live (w : world) (a : addr) (line : string) :
  is_Some (heap w !! a) ->
  through (Some a) line w = (Returns tt, World (instance w) (heap w) (cout w ++ line)).
Proof. intros [c Hc]. unfold through. now rewrite Hc. Qed.

Lemma string_app_assoc (s1 s2 s3 : string) : (s1 ++ s2) ++ s3 = s1 ++ (s2 ++ s3).
Proof.
  induction s1 as [|c s1 IH]; [reflexivity|].
  change (String c ((s1 ++ s2) ++ s3) = String c (s1 ++ (s2 ++ s3))). now rewrite IH.
Qed.

Lemma string_app_nil_r (s : string) : s ++ "" = s.
Proof.
  induction s as [|c s IH]; [reflexivity|].
  change (String c (s ++ "") = String c s). now rewrite IH.
Qed.

Lemma run_uses_live (a : addr) (us : list use) :
  forall w : world,
    is_Some (heap w !! a) ->
    run_uses (Some a) us w = (Returns tt, World (instance w) (heap w) (cout w ++ lines_of us)).
Proof.
  induction us as [|u us IH]; intros w Hlive.
  - cbn. unfold ret. rewrite string_app_nil_r. now destruct w.
  - cbn [run_uses lines_of fold_right]. unfold bind.
    assert (Hstep : exists line,
               run_use (Some a) u w = (Returns tt, World (instance w) (heap w) (cout w ++ line)) /\
               lines_of (u :: us) = line ++ lines_of us).
    { destruct u as [q|]; eexists; (split; [apply through_live; exact Hlive|reflexivity]). }
    destruct Hstep as (line & Hrun & Hlines). rewrite Hrun, IH by exact Hlive.
    cbn [instance heap cout]. fold (lines_of us).
    change (lines_of (u :: us)) with (lines_of (u :: us)) in Hlines.
    f_equal. f_equal. rewrite string_app_assoc. f_equal.
    symmetry. exact Hlines.
Qed.

(** X11: closeConnection does not release the instance. After any sequence of
    executeQuery and closeConnection calls on the instance, each of which
    only writes its line, the static pointer and the object are as before:
    queries still run after a close, and getInstance returns the same
    object without connecting again. *)
Theorem uses_do_not_release_the_connection
    (w : world) (a : addr) (us : list use)
    (Hinst : instance w = Some a) (Hlive : is_Some (heap w !! a)) :
  exists w' : world,
    run_uses (Some a) us w = (Returns tt, w') /\
    instance w' = Some a /\ heap w' = heap w /\
    cout w' = cout w ++ lines_of us /\
    (forall q, (executeQuery (Some a) q w').1 = Returns tt) /\
    (forall s, getInstance s w' = (Returns (Some a), w')).
Proof.
  exists (World (instance w) (heap w) (cout w ++ lines_of us)).
  split; [now apply run_uses_live|].
  split; [exact Hinst|]. split; [reflexivity|]. split; [reflexivity|].
  split.
  - intros q. unfold executeQuery. now rewrite through_live.
  - intros s. now apply SingletonProofs.getInstance_again.
Qed.

Lemma uses_do_not_release_the_connection_witness :
  exists w' : world,
    run_uses (Some 1%positive) [query "SELECT * FROM users"; close; query "SELECT * FROM orders"]
      (connected initial "Server=myServerAddress;Database=myDataBase;")
      = (Returns tt, w') /\
    getInstance "Different Connection String" w' = (Returns (Some 1%positive), w').
Proof.
  destruct (uses_do_not_release_the_connection
              (connected initial "Server=myServerAddress;Database=myDataBase;") 1%positive
              [query "SELECT * FROM users"; close; query "SELECT * FROM orders"])
    as (w' & Hrun & _ & _ & _ & _ & Hget).
  - vm_compute. reflexivity.
  - vm_compute. eauto.
  - exists w'. split; [exact Hrun|apply Hget].
Defined.

End ConnectionProofs.

(** ** The two versions of the shipping example *)

Module ShippingProofs.

Import Shipping.

(** X12: the two versions of the shipping example create the same product
    for every choice: the factory object main selects, asked for a
    product, answers as the static factory does. *)
Theorem both_versions_create_the_same_product (shippingChoice : Z) :
  FactoryMethod.createShippingMethod (FactoryMethod.select_factory shippingChoice)
  = StaticFactory.createShippingMethod shippingChoice.
Proof.
  unfold FactoryMethod.select_factory, StaticFactory.createShippingMethod.
  destruct (shippingChoice =? 1); [reflexivity|].
  destruct (shippingChoice =? 2); reflexivity.
Qed.

End ShippingProofs.

(** ** The parking lot *)

Module LotProofs.

Import Parking.

Lemma fits_at_Some (w : lot) (required : SpotType.t) (p : ptr) :
  fits_at w required p = true ->
  exists a s, p = Some a /\ spot_heap w !! a = Some s /\
              type s = required /\ isAvailable s = true.
Proof.
  unfold fits_at, fits. destruct p as [a|]; cbn; [|discriminate].
  destruct (spot_heap w !! a) as [s|] eqn:Hs; [|discriminate].
  intros H. apply andb_prop in H as [Ht Hav]. apply bool_decide_eq_true in Ht.
  exists a, s. now repeat split.
Qed.

Lemma scan_live (required : SpotType.t) (sps : list ptr) (w : lot) :
  Forall (spot_live w) sps -> scan required sps w = (Returns (first_fit w required sps), w).
Proof.
  induction 1 as [|p sps Hp _ IH]; [reflexivity|].
  cbn [scan first_fit]. unfold bind, deref_spot, fits_at.
  unfold spot_live in Hp. destruct p as [a|]; cbn in *; [|now destruct Hp].
  destruct (spot_heap w !! a) as [s|]; [|now destruct Hp].
  destruct (fits required s); [reflexivity|exact IH].
Qed.

Lemma first_fit_spec (w : lot) (required : SpotType.t) (sps : list ptr) :
  is_first_fit w required sps (first_fit w required sps).
Proof.
  induction sps as [|p sps IH]; [constructor|].
  cbn [first_fit]. destruct (fits_at w required p) eqn:Hp.
  - destruct (fits_at_Some w required p Hp) as (a & s & -> & _).
    exists [], sps. now repeat split.
  - destruct (first_fit w required sps) as [a|].
    + destruct IH as (pre & post & -> & Ha & Hpre).
      exists (p :: pre), post. split; [reflexivity|]. split; [exact Ha|].
      now constructor.
    + now constructor.
Qed.

Lemma first_fit_fits (w : lot) (required : SpotType.t) (sps : list ptr) (a : addr) :
  first_fit w required sps = Some a -> fits_at w required (Some a) = true.
Proof.
  intros H. pose proof (first_fit_spec w required sps) as Hspec. rewrite H in Hspec.
  now destruct Hspec as (_ & _ & _ & Ha & _).
Qed.

Lemma getAvailableSpot_ok (w : lot) (floor : ptr) (vtype : VehicleType.t) :
  floor_ok w floor ->
  getAvailableSpot floor vtype w = (Returns (floor_fit w (required_for vtype) floor), w).
Proof.
  unfold floor_ok, getAvailableSpot, bind, deref_floor, floor_fit.
  destruct floor as [f|]; cbn; [|contradiction].
  destruct (floor_heap w !! f) as [fl|]; [|contradiction].
  apply scan_live.
Qed.



Lemma lot_fit_fits (w : lot) (required : SpotType.t) (fls : list ptr) (a : addr) :
  lot_fit w required fls = Some a -> fits_at w required (Some a) = true.
Proof.
  induction fls as [|f fls IH]; [discriminate|].
  cbn [lot_fit]. destruct (floor_fit w required f) as [b|] eqn:Hf; [|exact IH].
  intros Heq. injection Heq as ->. unfold floor_fit in Hf.
  destruct (b ← f; floor_heap w !! b); [|discriminate]. now apply first_fit_fits in Hf.
Qed.

(** On well-formed floors the loop of parkVehicle takes the spot [lot_fit]
    names, or returns nullptr when there is none. *)
Lemma park_floors_ok (v : Vehicle) (fls : list ptr) (w : lot) :
  Forall (floor_ok w) fls -> globalId w < INT_MAX ->
  park_floors v fls w =
    match lot_fit w (required_for (vehicle_type v)) fls with
    | Some a =>
        match spot_heap w !! a with
        | Some s =>
            (Returns (Some {| ticket_id := globalId w + 1; ticket_vehicle := Some v;
                              ticket_spot := Some a |}),
             parked w a s v)
        | None => (Undefined, w)
        end
    | None => (Returns None, w)
    end.
Proof.
  intros Hok Hid. induction Hok as [|f fls Hf _ IH]; [reflexivity|].
  cbn [park_floors lot_fit]. unfold bind.
  rewrite (getAvailableSpot_ok w f _ Hf).
  destruct (floor_fit w (required_for (vehicle_type v)) f) as [a|] eqn:Hfit; [|exact IH].
  assert (Ha : fits_at w (required_for (vehicle_type v)) (Some a) = true).
  { unfold floor_fit in Hfit. destruct (b ← f; floor_heap w !! b); [|discriminate].
    now apply first_fit_fits in Hfit. }
  destruct (fits_at_Some _ _ _ Ha) as (a' & s & Heq & Hs & _ & Hav). injection Heq as <-.
  unfold assign_at. rewrite Hs. unfold assignVehicle. rewrite Hav. cbn [negb fst snd].
  unfold new_Ticket. cbn [globalId spot_heap floor_heap floors].
  destruct (Z.ltb_spec (globalId w) INT_MAX) as [_|Hge]; [reflexivity|lia].
Qed.






(** What a successful parkVehicle has done, on a well-formed lot. *)
Lemma park_result (w w1 : lot) (v : Vehicle) (t : Ticket) :
  well_formed w -> globalId w < INT_MAX ->
  parkVehicle (Some v) w = (Returns (Some t), w1) ->
  exists a s,
    lot_fit w (required_for (vehicle_type v)) (floors w) = Some a /\
    spot_heap w !! a = Some s /\
    type s = required_for (vehicle_type v) /\ isAvailable s = true /\
    t = {| ticket_id := globalId w + 1; ticket_vehicle := Some v; ticket_spot := Some a |} /\
    w1 = parked w a s v.
Proof.
  intros Hwf Hid Hpark. unfold parkVehicle, bind, get in Hpark.
  rewrite (park_floors_ok v (floors w) w Hwf Hid) in Hpark.
  destruct (lot_fit w (required_for (vehicle_type v)) (floors w)) as [a|] eqn:Hfit;
    [|discriminate].
  destruct (fits_at_Some _ _ _ (lot_fit_fits _ _ _ _ Hfit)) as (a' & s & Heq & Hs & Hty & Hav).
  injection Heq as <-. rewrite Hs in Hpark. injection Hpark as <- <-.
  exists a, s. now repeat split.
Qed.

Lemma unpark_parked (w : lot) (a : addr) (s : ParkingSpot) (v : Vehicle) (t : Ticket) :
  spot_heap w !! a = Some s -> isAvailable s = true -> currentVehicle s = None ->
  ticket_spot t = Some a -> is_Some (ticket_vehicle t) ->
  unparkVehicle (Some t) (parked w a s v)
  = (Returns tt, Lot (spot_heap w) (floor_heap w) (floors w) (globalId w + 1)).
Proof.
  intros Hs Hav Hcur Hspot [v' Hv]. unfold unparkVehicle, parked. rewrite Hspot, Hv.
  cbn [spot_heap floor_heap floors globalId]. rewrite lookup_insert_eq. f_equal. f_equal.
  rewrite insert_insert_eq. apply insert_id. rewrite Hs. f_equal.
  destruct s as [n ty av cur]. cbn in *. subst. reflexivity.
Qed.

(** X13: on a floor whose spot pointers all point to spots, getAvailableSpot
    changes nothing and returns the first spot of the floor, in the order
    the spots were added, that has the type required for the vehicle type
    and is available; it returns nullptr exactly when the floor has no such
    spot. *)
Theorem getAvailableSpot_returns_first_fit
    (w : lot) (floor : ptr) (vtype : VehicleType.t) (Hok : floor_ok w floor) :
  exists (r : ptr) (fl : ParkingFloor),
    getAvailableSpot floor vtype w = (Returns r, w) /\
    (a ← floor; floor_heap w !! a) = Some fl /\
    is_first_fit w (required_for vtype) (spots fl) r.
Proof.
  exists (floor_fit w (required_for vtype) floor).
  pose proof (getAvailableSpot_ok w floor vtype Hok) as Hrun.
  unfold floor_ok in Hok. unfold floor_fit in *.
  destruct (a ← floor; floor_heap w !! a) as [fl|]; [|contradiction].
  exists fl. split; [exact Hrun|]. split; [reflexivity|]. apply first_fit_spec.
Qed.

Lemma getAvailableSpot_returns_first_fit_witness :
  exists (r : ptr) (fl : ParkingFloor),
    getAvailableSpot (Some 1%positive) VehicleType.BIKE main_lot = (Returns r, main_lot) /\
    (a ← Some 1%positive; floor_heap main_lot !! a) = Some fl /\
    is_first_fit main_lot SpotType.BIKE (spots fl) r.
Proof.
  apply (getAvailableSpot_returns_first_fit main_lot (Some 1%positive) VehicleType.BIKE).
  by_decision.
Defined.





(** X16: unparking with the ticket just issued undoes the parking. On a
    well-formed lot whose available spots hold no vehicle, after a
    successful parkVehicle and unparkVehicle of its ticket, every spot and
    floor is as before; only the ticket counter has advanced. *)
Theorem unpark_undoes_park
    (w w1 : lot) (v : Vehicle) (t : Ticket)
    (Hwf : well_formed w) (Hid : globalId w < INT_MAX)
    (Hinv : all_spots available_implies_empty w)
    (Hpark : parkVehicle (Some v) w = (Returns (Some t), w1)) :
  unparkVehicle (Some t) w1
  = (Returns tt, Lot (spot_heap w) (floor_heap w) (floors w) (globalId w + 1)).
Proof.
  destruct (park_result w w1 v t Hwf Hid Hpark) as (a & s & _ & Hs & _ & Hav & -> & ->).
  apply unpark_parked; [exact Hs|exact Hav| |reflexivity|cbn; eauto].
  exact (Hinv a s Hs Hav).
Qed.

Lemma unpark_undoes_park_witness :
  exists (t : Ticket) (w1 : lot),
    parkVehicle (createVehicle VehicleType.CAR "DL-001") main_lot = (Returns (Some t), w1) /\
    unparkVehicle (Some t) w1
    = (Returns tt, Lot (spot_heap main_lot) (floor_heap main_lot) (floors main_lot) 1).
Proof.
  eexists _, _. split; [vm_compute; reflexivity|].
  refine (unpark_undoes_park main_lot _
            {| vehicle_number := "DL-001"; vehicle_type := VehicleType.CAR |} _ _ _ _ _).
  - by_decision.
  - vm_compute. reflexivity.
  - intros a s Hs. vm_compute in Hs.
    repeat (destruct a as [a|a|]; try discriminate Hs);
      injection Hs as <-; intros _; reflexivity.
  - vm_compute. reflexivity.
Defined.

Lemma scan_state (required : SpotType.t) (sps : list ptr) (w : lot) :
  (scan required sps w).2 = w.
Proof.
  induction sps as [|p sps IH]; [reflexivity|].
  cbn [scan]. unfold bind, deref_spot.
  destruct p as [a|]; [|reflexivity].
  destruct (spot_heap w !! a) as [s|]; [|reflexivity].
  destruct (fits required s); [reflexivity|exact IH].
Qed.

Lemma getAvailableSpot_state (floor : ptr) (vtype : VehicleType.t) (w : lot) :
  (getAvailableSpot floor vtype w).2 = w.
Proof.
  unfold getAvailableSpot, bind, deref_floor.
  destruct floor as [f|]; [|reflexivity].
  destruct (floor_heap w !! f) as [fl|]; [|reflexivity].
  pose proof (scan_state (required_for vtype) (spots fl) w) as Hs.
  destruct (scan (required_for vtype) (spots fl) w) as [[r|e|] w0]; cbn in Hs; now subst.
Qed.

Lemma assign_keeps_equivalence (v : Vehicle) (s : ParkingSpot) :
  available_iff_empty s -> available_iff_empty (assignVehicle (Some v) s).2.
Proof. exact (ParkingProofs.run_op_keeps_equivalence s (assign (Some v)) I). Qed.

Lemma remove_gives_equivalence (s : ParkingSpot) : available_iff_empty (removeVehicle s).
Proof. split; reflexivity. Qed.

Lemma park_floors_keeps_equivalence (v : Vehicle) (fls : list ptr) :
  forall (w w' : lot) (r : option Ticket),
    park_floors v fls w = (Returns r, w') ->
    all_spots available_iff_empty w -> all_spots available_iff_empty w'.
Proof.
  induction fls as [|f fls IH]; intros w w' r Hrun Hinv.
  - injection Hrun as _ <-. exact Hinv.
  - cbn [park_floors] in Hrun. unfold bind in Hrun.
    pose proof (getAvailableSpot_state f (vehicle_type v) w) as Hst.
    destruct (getAvailableSpot f (vehicle_type v) w) as [[spot|e|] w0];
      cbn in Hst; subst w0; [|discriminate|discriminate].
    destruct spot as [a|]; [|exact (IH _ _ _ Hrun Hinv)].
    unfold assign_at in Hrun. destruct (spot_heap w !! a) as [s|] eqn:Hs; [|discriminate].
    assert (Hinv1 : all_spots available_iff_empty
                      (Lot (<[a := (assignVehicle (Some v) s).2]> (spot_heap w))
                           (floor_heap w) (floors w) (globalId w))).
    { unfold all_spots. cbn [spot_heap]. apply map_Forall_insert_2; [|exact Hinv].
      apply assign_keeps_equivalence. exact (Hinv a s Hs). }
    destruct ((assignVehicle (Some v) s).1); [|exact (IH _ _ _ Hrun Hinv1)].
    unfold new_Ticket in Hrun. cbn [globalId spot_heap floor_heap floors] in Hrun.
    destruct (globalId w <? INT_MAX); [|discriminate].
    injection Hrun as _ <-. exact Hinv1.
Qed.

(** X17: the operations of the lot keep every spot consistent. If
    [isAvailable] holds exactly when [currentVehicle] is null for every
    spot, it still does after any parkVehicle and any unparkVehicle call
    that returns: the lot never passes a null vehicle to a spot. *)
Theorem lot_operations_keep_spots_consistent
    (w w' : lot) (Hinv : all_spots available_iff_empty w) :
  (forall vehicle r, parkVehicle vehicle w = (Returns r, w') ->
                     all_spots available_iff_empty w') /\
  (forall ticket, unparkVehicle ticket w = (Returns tt, w') ->
                  all_spots available_iff_empty w').
Proof.
  split.
  - intros [v|] r Hrun; [|discriminate].
    unfold parkVehicle, bind, get in Hrun.
    exact (park_floors_keeps_equivalence v (floors w) w w' r Hrun Hinv).
  - intros [t|] Hrun; [|discriminate]. unfold unparkVehicle in Hrun.
    destruct (ticket_spot t) as [a|]; [|discriminate].
    destruct (spot_heap w !! a) as [s|] eqn:Hs; [|discriminate].
    destruct (ticket_vehicle t); [|discriminate].
    injection Hrun as <-. unfold all_spots. cbn [spot_heap].
    apply map_Forall_insert_2; [apply remove_gives_equivalence|exact Hinv].
Qed.

Lemma lot_operations_keep_spots_consistent_witness :
  all_spots available_iff_empty
    (parked main_lot 3%positive (new_ParkingSpot 103 SpotType.TRUCK)
            {| vehicle_number := "DL-003"; vehicle_type := VehicleType.TRUCK |}).
Proof.
  refine (proj1 (lot_operations_keep_spots_consistent main_lot _ _)
            (createVehicle VehicleType.TRUCK "DL-003")
            (Some {| ticket_id := 1; ticket_vehicle := createVehicle VehicleType.TRUCK "DL-003";
                     ticket_spot := Some 3%positive |}) _).
  - intros a s Hs. vm_compute in Hs.
    repeat (destruct a as [a|a|]; try discriminate Hs);
      injection Hs as <-; split; reflexivity.
  - vm_compute. reflexivity.
Defined.



(** X19: unparkVehicle is idempotent: a second call with the same ticket
    returns as the first did and changes nothing more. *)
Theorem unparkVehicle_is_idempotent
    (w w1 : lot) (ticket : option Ticket)
    (Hrun : unparkVehicle ticket w = (Returns tt, w1)) :
  unparkVehicle ticket w1 = (Returns tt, w1).
Proof.
  destruct ticket as [t|]; [|discriminate]. unfold unparkVehicle in *.
  destruct (ticket_spot t) as [a|]; [|discriminate].
  destruct (spot_heap w !! a) as [s|]; [|discriminate].
  destruct (ticket_vehicle t); [|discriminate].
  injection Hrun as <-. cbn [spot_heap floor_heap floors globalId].
  rewrite lookup_insert_eq. f_equal. f_equal. now rewrite insert_insert_eq.
Qed.

Lemma unparkVehicle_is_idempotent_witness :
  unparkVehicle (Some {| ticket_id := 1; ticket_vehicle := createVehicle VehicleType.CAR "DL-001";
                         ticket_spot := Some 1%positive |})
    (unparkVehicle (Some {| ticket_id := 1;
                            ticket_vehicle := createVehicle VehicleType.CAR "DL-001";
                            ticket_spot := Some 1%positive |}) main_lot).2
  = (Returns tt,
     (unparkVehicle (Some {| ticket_id := 1;
                             ticket_vehicle := createVehicle VehicleType.CAR "DL-001";
                             ticket_spot := Some 1%positive |}) main_lot).2).
Proof.
  apply (unparkVehicle_is_idempotent main_lot).
  vm_compute. reflexivity.
Defined.





End LotProofs.

(** ** Splits, users and groups *)

Module SplitProofs.

Import SplitWise.

Lemma lookup_repeat {A} (x : A) (n j : nat) : (j < n)%nat -> repeat x n !! j = Some x.
Proof.
  revert j. induction n as [|n IH]; intros j Hj; [lia|].
  destruct j as [|j]; [reflexivity|]. cbn. apply IH. lia.
Qed.

Lemma participant_ids_cons (user : User) (ps : list shared_ptr_User) :
  participant_ids (Some user :: ps) = id user :: participant_ids ps.
Proof. reflexivity. Qed.

(** The loop gives every id of the rest the share and keeps the other
    entries, as long as the shares reach as far as the participants. *)
Lemma assign_shares_spec (share : float) (shares : list float) (rest : list shared_ptr_User) :
  forall (splits : gmap Z float) (i : nat),
    Forall is_Some rest ->
    (forall j, (i <= j < i + length rest)%nat -> shares !! j = Some share) ->
    exists m,
      assign_shares splits i rest shares = Returns m /\
      (forall k, k ∈ participant_ids rest -> m !! k = Some share) /\
      (forall k, k ∉ participant_ids rest -> m !! k = splits !! k).
Proof.
  induction rest as [|u rest IH]; intros splits i Hnn Hsh.
  - exists splits. split; [reflexivity|]. split; [|reflexivity].
    intros k Hk. now apply elem_of_nil in Hk.
  - apply Forall_cons in Hnn as [[user ->] Hnn].
    cbn [assign_shares]. rewrite (Hsh i) by (cbn [length]; lia).
    destruct (IH (<[id user := share]> splits) (S i) Hnn) as (m & Hrun & Hin & Hout).
    { intros j Hj. apply Hsh. cbn [length]. lia. }
    exists m. split; [exact Hrun|]. rewrite participant_ids_cons. split.
    + intros k Hk. destruct (decide (k ∈ participant_ids rest)) as [Hr|Hr]; [now apply Hin|].
      rewrite (Hout k Hr). apply elem_of_cons in Hk as [->|Hk]; [|contradiction].
      apply lookup_insert_eq.
    + intros k Hk. apply not_elem_of_cons in Hk as [Hne Hk].
      rewrite (Hout k Hk). now apply lookup_insert_ne.
Qed.

Lemma assign_shares_null (shares : list float) (rest : list shared_ptr_User) :
  forall (splits : gmap Z float) (i : nat),
    None ∈ rest -> assign_shares splits i rest shares = Undefined.
Proof.
  induction rest as [|u rest IH]; intros splits i Hin; [now apply elem_of_nil in Hin|].
  cbn [assign_shares]. destruct u as [user|]; [|reflexivity].
  destruct (shares !! i); [|reflexivity].
  apply IH. apply elem_of_cons in Hin as [Heq|Hin]; [discriminate|exact Hin].
Qed.

(** X21: for an expense with the equal-split strategy and a non-empty list
    of non-null participants whose size fits int, splitAmount returns a map
    whose keys are exactly the participants' ids, each mapped to
    amount / n. Participants with the same id share one entry. *)
Theorem splitAmount_maps_each_id_to_the_share
    (e : Expense)
    (Hstrategy : strategy e = Some EqualSplitStrategy)
    (Hne : participants e <> []) (Hfit : Z.of_nat (length (participants e)) <= INT_MAX)
    (Hnonnull : Forall is_Some (participants e)) :
  exists splits : gmap Z float,
    splitAmount e = Returns splits /\
    dom splits = list_to_set (participant_ids (participants e)) /\
    forall k, k ∈ participant_ids (participants e) ->
              splits !! k = Some (fdiv (amount e) (of_int (Z.of_nat (length (participants e))))).
Proof.
  set (share := fdiv (amount e) (of_int (Z.of_nat (length (participants e))))).
  unfold splitAmount. rewrite Hstrategy.
  rewrite (SplitWiseProofs.calculate_in_range (amount e) (participants e) [] Hne Hfit).
  cbn [and_then]. fold share.
  destruct (assign_shares_spec share (repeat share (length (participants e)))
              (participants e) ∅ 0 Hnonnull) as (m & Hrun & Hin & Hout).
  { intros j Hj. apply lookup_repeat. lia. }
  exists m. split; [exact Hrun|]. split; [|exact Hin].
  apply set_eq. intros k. rewrite elem_of_dom, elem_of_list_to_set.
  destruct (decide (k ∈ participant_ids (participants e))) as [Hk|Hk].
  - rewrite (Hin k Hk). split; eauto.
  - rewrite (Hout k Hk), lookup_empty. split; [intros [? ?]; discriminate|contradiction].
Qed.

Lemma splitAmount_maps_each_id_to_the_share_witness :
  exists splits : gmap Z float,
    splitAmount {| expense_id := 1001; amount := of_int 300; paidBy := Some alice;
                   participants := [Some alice; Some bob; Some alice];
                   strategy := Some EqualSplitStrategy |} = Returns splits /\
    dom splits = {[ 1; 2 ]}.
Proof.
  destruct (splitAmount_maps_each_id_to_the_share
              {| expense_id := 1001; amount := of_int 300; paidBy := Some alice;
                 participants := [Some alice; Some bob; Some alice];
                 strategy := Some EqualSplitStrategy |})
    as (splits & Hrun & Hdom & _).
  - reflexivity.
  - discriminate.
  - vm_compute. discriminate.
  - repeat constructor; eauto.
  - exists splits. split; [exact Hrun|]. rewrite Hdom. cbn. set_solver.
Defined.

(** X22: splitAmount dereferences every participant: with the equal-split
    strategy and a non-empty participant list whose size fits int, one
    null participant makes the behaviour undefined. *)
Theorem splitAmount_with_null_participant_is_undefined
    (e : Expense)
    (Hstrategy : strategy e = Some EqualSplitStrategy)
    (Hfit : Z.of_nat (length (participants e)) <= INT_MAX)
    (Hnull : None ∈ participants e) :
  splitAmount e = Undefined.
Proof.
  assert (Hne : participants e <> []).
  { intros Heq. rewrite Heq in Hnull. now apply elem_of_nil in Hnull. }
  unfold splitAmount. rewrite Hstrategy.
  rewrite (SplitWiseProofs.calculate_in_range (amount e) (participants e) [] Hne Hfit).
  cbn [and_then]. now apply assign_shares_null.
Qed.

Lemma splitAmount_with_null_participant_is_undefined_witness :
  splitAmount {| expense_id := 1001; amount := of_int 300; paidBy := Some alice;
                 participants := [Some alice; None; Some charlie];
                 strategy := Some EqualSplitStrategy |} = Undefined.
Proof.
  apply splitAmount_with_null_participant_is_undefined.
  - reflexivity.
  - vm_compute. discriminate.
  - cbn. set_solver.
Defined.

Lemma show_each_nonnull (ms : list shared_ptr_User) :
  Forall is_Some ms -> forall w : services, (show_each ms w).1 = Returns tt.
Proof.
  induction 1 as [|u ms [user ->] _ IH]; intros w; [reflexivity|].
  cbn [show_each]. unfold bind, print, modify. apply IH.
Qed.

Lemma show_each_null (ms : list shared_ptr_User) :
  None ∈ ms -> forall w : services, (show_each ms w).1 = Undefined.
Proof.
  induction ms as [|u ms IH]; intros Hin w; [now apply elem_of_nil in Hin|].
  destruct u as [user|]; [|reflexivity].
  cbn [show_each]. unfold bind, print, modify. apply IH.
  apply elem_of_cons in Hin as [Heq|Hin]; [discriminate|exact Hin].
Qed.

(** X23: getUser returns nullptr for an id that was never added, and
    addUserToGroup accepts it: the null pointer becomes a member of the
    group, and showGroup of that group then has undefined behaviour,
    whereas it returned before when all members were non-null. *)
Theorem unknown_user_in_group_breaks_showGroup
    (w : services) (uid gid : Z) (a : addr) (grp : Group)
    (Hunknown : users w !! uid = None)
    (Hgroup : groups w !! gid = Some (Some a)) (Hlive : group_heap w !! a = Some grp)
    (Hmembers : Forall is_Some (members grp)) :
  (showGroup gid w).1 = Returns tt /\
  exists w' : services,
    (user <- getUser uid ;; addUserToGroup gid user)%cpp w = (Returns tt, w') /\
    members_at w' (Some a) = Some (members grp ++ [None])%list /\
    (showGroup gid w').1 = Undefined.
Proof.
  split.
  { unfold showGroup, showMembers. rewrite Hgroup, Hlive. unfold bind, print, modify.
    now apply show_each_nonnull. }
  eexists. split.
  { unfold bind, getUser. rewrite Hunknown. unfold addUserToGroup, addMember.
    now rewrite Hgroup, Hlive. }
  split.
  { unfold members_at. cbn [mbind option_bind group_heap]. now rewrite lookup_insert_eq. }
  unfold showGroup, showMembers. cbn [groups group_heap]. rewrite Hgroup, lookup_insert_eq.
  unfold bind, print, modify. apply show_each_null. cbn [members].
  apply elem_of_app. right. now left.
Qed.

Lemma unknown_user_in_group_breaks_showGroup_witness :
  exists w' : services,
    (user <- getUser 99 ;; addUserToGroup 101 user)%cpp
      (Services {[ 1 := alice ]}
                {[ 1%positive := {| group_id := 101; group_name := "Trip to Goa";
                                    members := [Some alice] |} ]}
                {[ 101 := Some 1%positive ]} "")
      = (Returns tt, w') /\
    (showGroup 101 w').1 = Undefined.
Proof.
  destruct (unknown_user_in_group_breaks_showGroup
              (Services {[ 1 := alice ]}
                        {[ 1%positive := {| group_id := 101; group_name := "Trip to Goa";
                                            members := [Some alice] |} ]}
                        {[ 101 := Some 1%positive ]} "")
              99 101 1%positive
              {| group_id := 101; group_name := "Trip to Goa"; members := [Some alice] |})
    as (_ & w' & Hrun & _ & Hshow).
  - vm_compute. reflexivity.
  - vm_compute. reflexivity.
  - vm_compute. reflexivity.
  - repeat constructor; eauto.
  - exists w'. split; [exact Hrun|exact Hshow].
Defined.

(** X24: createGroup with an id already in use does not extend the existing
    group: the service then refers to a new group with no members, while a
    pointer obtained from getGroup before still refers to the old group
    with its members. Members added afterwards go to the new group only. *)
Theorem createGroup_again_starts_an_empty_group
    (w : services) (gid : Z) (n : string) (a : addr) (grp : Group) (user : shared_ptr_User)
    (Hgroup : groups w !! gid = Some (Some a)) (Hlive : group_heap w !! a = Some grp) :
  exists (b : addr) (w1 w2 : services),
    getGroup gid w = (Returns (Some a), w) /\
    createGroup gid n w = (Returns tt, w1) /\
    getGroup gid w1 = (Returns (Some b), w1) /\ b <> a /\
    members_at w1 (Some b) = Some [] /\
    members_at w1 (Some a) = Some (members grp) /\
    addUserToGroup gid user w1 = (Returns tt, w2) /\
    members_at w2 (Some b) = Some [user] /\
    members_at w2 (Some a) = Some (members grp).
Proof.
  pose proof (alloc_lookup_new (group_heap w)
                {| group_id := gid; group_name := n; members := [] |}) as Hnew.
  pose proof (alloc_fresh (group_heap w)
                {| group_id := gid; group_name := n; members := [] |}) as Hfresh.
  pose proof (alloc_lookup_old (group_heap w)
                {| group_id := gid; group_name := n; members := [] |} a) as Hold.
  assert (Hcreate : createGroup gid n w
            = (Returns tt,
               Services (users w)
                 (alloc (group_heap w) {| group_id := gid; group_name := n; members := [] |}).2
                 (<[gid := Some (alloc (group_heap w)
                                   {| group_id := gid; group_name := n; members := [] |}).1]>
                    (groups w))
                 (cout w))) by reflexivity.
  destruct (alloc (group_heap w) {| group_id := gid; group_name := n; members := [] |})
    as [b h']. cbn [fst snd] in *.
  assert (Ha : a ∈ dom (group_heap w)) by (apply elem_of_dom; eauto).
  assert (Hne : b <> a) by (intros ->; contradiction).
  specialize (Hold Ha).
  eexists b, _, _.
  split; [unfold getGroup; now rewrite Hgroup|].
  split; [exact Hcreate|].
  split; [unfold getGroup; cbn [groups]; now rewrite lookup_insert_eq|].
  split; [exact Hne|].
  split; [unfold members_at; cbn [mbind option_bind group_heap]; now rewrite Hnew|].
  split; [unfold members_at; cbn [mbind option_bind group_heap]; now rewrite Hold, Hlive|].
  split.
  { unfold addUserToGroup, addMember. cbn [groups group_heap].
    rewrite lookup_insert_eq, Hnew. reflexivity. }
  unfold members_at. cbn [mbind option_bind group_heap]. split.
  - now rewrite lookup_insert_eq.
  - rewrite lookup_insert_ne by exact Hne. now rewrite Hold, Hlive.
Qed.

Lemma createGroup_again_starts_an_empty_group_witness :
  exists (b : addr) (w1 : services),
    createGroup 101 "Trip to Goa"
      (Services {[ 1 := alice ]}
                {[ 1%positive := {| group_id := 101; group_name := "Trip to Goa";
                                    members := [Some alice] |} ]}
                {[ 101 := Some 1%positive ]} "")
      = (Returns tt, w1) /\
    getGroup 101 w1 = (Returns (Some b), w1) /\
    members_at w1 (Some b) = Some [] /\
    members_at w1 (Some 1%positive) = Some [Some alice].
Proof.
  destruct (createGroup_again_starts_an_empty_group
              (Services {[ 1 := alice ]}
                        {[ 1%positive := {| group_id := 101; group_name := "Trip to Goa";
                                            members := [Some alice] |} ]}
                        {[ 101 := Some 1%positive ]} "")
              101 "Trip to Goa" 1%positive
              {| group_id := 101; group_name := "Trip to Goa"; members := [Some alice] |}
              (Some bob))
    as (b & w1 & w2 & _ & Hcreate & Hget & _ & Hempty & Hold & _).
  - vm_compute. reflexivity.
  - vm_compute. reflexivity.
  - exists b, w1. split; [exact Hcreate|]. split; [exact Hget|]. split; [exact Hempty|exact Hold].
Defined.

End SplitProofs.

(** ** The weather station and its observers *)

Module WeatherProofs.

Import Weather.

Lemma lines_for_heap (w w' : world) (t : spec_float) (obss : list ptr) :
  heap w = heap w' -> lines_for w t obss = lines_for w' t obss.
Proof. intros Hh. unfold lines_for. now rewrite Hh. Qed.

Lemma update_live (w : world) (a : addr) (o : Observer) (t : spec_float) :
  heap w !! a = Some o ->
  update (Some a) t w
  = (Returns tt, World (heap w) (observers w) (temperature w) (cout w ++ [shown o t])).
Proof. intros Ho. unfold update. rewrite Ho. now destruct o. Qed.

Lemma notify_each_live (t : spec_float) (obss : list ptr) :
  forall w : world,
    temperature w = Some t -> Forall (live w) obss ->
    notify_each obss w
    = (Returns tt, World (heap w) (observers w) (Some t) (cout w ++ lines_for w t obss)).
Proof.
  induction obss as [|p obss IH]; intros w Ht Hlive.
  - cbn. unfold ret. rewrite app_nil_r. destruct w; cbn in *. now subst.
  - apply Forall_cons in Hlive as [Hp Hlive].
    unfold live in Hp. destruct p as [a|]; cbn in Hp; [|now destruct Hp].
    destruct Hp as [o Ho].
    cbn [notify_each]. unfold bind, get. rewrite Ht, (update_live w a o t Ho).
    rewrite IH; [|exact Ht|exact Hlive].
    cbn [heap observers temperature cout]. f_equal. f_equal.
    rewrite <- app_assoc. f_equal. unfold lines_for. cbn. now rewrite Ho.
Qed.

Lemma notify_each_dangling (t : spec_float) (p : ptr) (obss : list ptr) :
  forall w : world,
    temperature w = Some t -> p ∈ obss -> ~ live w p -> (notify_each obss w).1 = Undefined.
Proof.
  induction obss as [|q obss IH]; intros w Ht Hin Hdead; [now apply elem_of_nil in Hin|].
  cbn [notify_each]. unfold bind, get. rewrite Ht. unfold update.
  destruct q as [b|]; [|reflexivity].
  destruct (heap w !! b) as [o|] eqn:Hb; [|reflexivity].
  assert (Hrest : p ∈ obss).
  { apply elem_of_cons in Hin as [->|Hin]; [|exact Hin].
    exfalso. apply Hdead. unfold live. cbn. rewrite Hb. eauto. }
  destruct o; apply IH; try exact Ht; try exact Hrest; exact Hdead.
Qed.

(** X25: removeObserver removes every registration of the observer, however
    often it was added. Afterwards setTemperature returns, as long as the
    other registered pointers point to observers, and writes one line per
    remaining registration, in the order of registration, with the new
    temperature; the removed observer is not called, so it may already have
    been deleted. *)
Theorem removed_observer_is_not_notified
    (w : world) (obs : ptr) (t : spec_float)
    (Hothers : forall p, p ∈ observers w -> p <> obs -> live w p) :
  (removeObserver obs ;;; setTemperature t)%cpp w
  = (Returns tt,
     World (heap w) (filter (fun p => p <> obs) (observers w)) (Some t)
           (cout w ++ lines_for w t (filter (fun p => p <> obs) (observers w)))) /\
  obs ∉ filter (fun p => p <> obs) (observers w).
Proof.
  split.
  - unfold bind, removeObserver, setTemperature, bind, modify, notifyObservers, bind, get.
    cbn [heap observers temperature cout].
    rewrite (notify_each_live t); [reflexivity|reflexivity|].
    apply Forall_forall. intros p Hp. apply list_elem_of_filter in Hp as [Hne Hp].
    exact (Hothers p Hp Hne).
  - intros Hin. apply list_elem_of_filter in Hin as [Hne _]. now apply Hne.
Qed.

Lemma removed_observer_is_not_notified_witness :
  (removeObserver (Some 2%positive) ;;; setTemperature (SplitWise.of_int 28))%cpp
    (World {[ 1%positive := PhoneDisplay ]}
           [Some 1%positive; Some 2%positive; Some 2%positive] None [])
  = (Returns tt,
     World {[ 1%positive := PhoneDisplay ]} [Some 1%positive] (Some (SplitWise.of_int 28))
           [shown PhoneDisplay (SplitWise.of_int 28)]).
Proof.
  refine (eq_trans (proj1 (removed_observer_is_not_notified
                             (World {[ 1%positive := PhoneDisplay ]}
                                    [Some 1%positive; Some 2%positive; Some 2%positive] None [])
                             (Some 2%positive) (SplitWise.of_int 28) _)) _).
  - intros p Hp Hne. cbn [observers] in Hp.
    apply elem_of_cons in Hp as [->|Hp]; [vm_compute; eauto|].
    apply elem_of_cons in Hp as [->|Hp]; [contradiction|].
    apply elem_of_cons in Hp as [->|Hp]; [contradiction|now apply elem_of_nil in Hp].
  - vm_compute. reflexivity.
Defined.

Lemma add_times_observers (k : nat) (obs : ptr) :
  forall w : world,
    add_times k obs w
    = (Returns tt, World (heap w) (observers w ++ repeat obs k) (temperature w) (cout w)).
Proof.
  induction k as [|k IH]; intros w.
  - cbn. unfold ret. rewrite app_nil_r. now destruct w.
  - cbn [add_times repeat]. unfold bind, addObserver, modify. rewrite IH.
    cbn [heap observers temperature cout]. now rewrite <- app_assoc.
Qed.

Lemma filter_out_all (obs : ptr) (l : list ptr) :
  obs ∉ l -> filter (fun p => p <> obs) l = l.
Proof.
  induction l as [|q l IH]; intros Hnotin; [reflexivity|].
  apply not_elem_of_cons in Hnotin as [Hne Hnotin].
  rewrite filter_cons_True by congruence. now rewrite IH.
Qed.

Lemma filter_out_repeat (obs : ptr) (k : nat) : filter (fun p => p <> obs) (repeat obs k) = [].
Proof.
  induction k as [|k IH]; [reflexivity|].
  cbn [repeat]. rewrite filter_cons_False; [exact IH|]. intros H. now apply H.
Qed.

(** X26: one removeObserver undoes any number of addObserver calls for an
    observer that was not registered before: the station is back in the
    state it had. *)
Theorem one_remove_undoes_all_adds
    (w : world) (obs : ptr) (k : nat) (Hnew : obs ∉ observers w) :
  (add_times k obs ;;; removeObserver obs)%cpp w = (Returns tt, w).
Proof.
  unfold bind. rewrite add_times_observers. unfold removeObserver, modify.
  cbn [heap observers temperature cout].
  rewrite filter_app, filter_out_repeat, app_nil_r, (filter_out_all obs _ Hnew).
  now destruct w.
Qed.

Lemma one_remove_undoes_all_adds_witness :
  (add_times 3 (Some 2%positive) ;;; removeObserver (Some 2%positive))%cpp
    (World {[ 1%positive := PhoneDisplay; 2%positive := WebDashboard ]} [Some 1%positive] None [])
  = (Returns tt,
     World {[ 1%positive := PhoneDisplay; 2%positive := WebDashboard ]} [Some 1%positive] None []).
Proof.
  apply (one_remove_undoes_all_adds
           (World {[ 1%positive := PhoneDisplay; 2%positive := WebDashboard ]}
                  [Some 1%positive] None []) (Some 2%positive) 3).
  cbn [observers]. intros Hin.
  apply elem_of_cons in Hin as [Heq|Hin]; [discriminate|now apply elem_of_nil in Hin].
Defined.

(** X27: the station does not own its observers and does not notice their
    deletion. When a registered observer is deleted without being removed,
    the next setTemperature has undefined behaviour; when it is removed
    first and the other registered pointers point to observers,
    setTemperature returns. *)
Theorem deleted_observer_must_be_removed
    (w : world) (a : addr) (t : spec_float)
    (Hreg : Some a ∈ observers w) (Hlive : is_Some (heap w !! a))
    (Hothers : forall p, p ∈ observers w -> p <> Some a -> live w p) :
  ((delete_ (Some a) ;;; setTemperature t)%cpp w).1 = Undefined /\
  ((removeObserver (Some a) ;;; delete_ (Some a) ;;; setTemperature t)%cpp w).1 = Returns tt.
Proof.
  destruct Hlive as [o Ho]. split.
  - unfold bind, delete_. rewrite Ho.
    unfold setTemperature, bind, modify, notifyObservers, bind, get.
    cbn [heap observers temperature cout].
    apply (notify_each_dangling t (Some a)); [reflexivity|exact Hreg|].
    unfold live. cbn. rewrite lookup_delete_eq. intros [? ?]. discriminate.
  - unfold bind, removeObserver, modify, delete_. cbn [heap observers temperature cout].
    rewrite Ho. unfold setTemperature, bind, modify, notifyObservers, bind, get.
    cbn [heap observers temperature cout].
    rewrite (notify_each_live t); [reflexivity|reflexivity|].
    apply Forall_forall. intros p Hp. apply list_elem_of_filter in Hp as [Hne Hp].
    specialize (Hothers p Hp Hne). unfold live in *.
    destruct p as [b|]; cbn in *; [|exact Hothers].
    rewrite lookup_delete_ne by congruence. exact Hothers.
Qed.

Lemma deleted_observer_must_be_removed_witness :
  ((delete_ (Some 2%positive) ;;; setTemperature (SplitWise.of_int 28))%cpp
     (World {[ 1%positive := PhoneDisplay; 2%positive := WebDashboard ]}
            [Some 1%positive; Some 2%positive] None [])).1 = Undefined.
Proof.
  refine (proj1 (deleted_observer_must_be_removed
                   (World {[ 1%positive := PhoneDisplay; 2%positive := WebDashboard ]}
                          [Some 1%positive; Some 2%positive] None [])
                   2%positive (SplitWise.of_int 28) _ _ _)).
  - cbn [observers]. set_solver.
  - vm_compute. eauto.
  - intros p Hp Hne. cbn [observers] in Hp.
    apply elem_of_cons in Hp as [->|Hp]; [vm_compute; eauto|].
    apply elem_of_cons in Hp as [->|Hp]; [contradiction|now apply elem_of_nil in Hp].
Defined.

End WeatherProofs.

(** ** Decorated coffee *)

Module DecoratorProofs.

Import Decorator.

Lemma order_snoc (ds : list addon) (d : addon) : order (ds ++ [d]) = decorate (order ds) d.
Proof. unfold order. now rewrite fold_left_app. Qed.

(** X28: for a simple coffee with any add-ons applied in order, the cost is
    5.0 with the prices of the add-ons added one after the other in the
    order applied, and the description is the base text followed by the
    add-ons' texts in that order; neither call fails. For main's order
    (milk, sugar, whipped cream) the cost is 9. *)
Theorem decorated_coffee_adds_up (ds : list addon) :
  cost (order ds) = Returns (fold_left (fun acc d => acc + price d)%float ds 5.0%float) /\
  description (order ds) = Returns (fold_left (fun s d => s ++ label d) ds "Simple Coffee") /\
  cost (order [Milk; Sugar; WhippedCream]) = Returns 9.0%float.
Proof.
  split; [|split; [|reflexivity]].
  - induction ds as [|d ds IH] using rev_ind; [reflexivity|].
    rewrite order_snoc, fold_left_app. destruct d; cbn; now rewrite IH.
  - induction ds as [|d ds IH] using rev_ind; [reflexivity|].
    rewrite order_snoc, fold_left_app. destruct d; cbn; now rewrite IH.
Qed.

End DecoratorProofs.
